(** * Detection query language: filter, offset, shift, property extraction

    A shallow embedding of
    [inference/core/workflows/core_steps/common/query_language/operations/detections/base.py]
    and of the polygon conversion of
    [inference/core/workflows/core_steps/models/foundation/segment_anything/v1.py].

    Python objects that the code mutates or copies (parameter dictionaries,
    the numpy arrays held by an [sv.Detections]) live in an explicit heap;
    the entry points are programs of a state-and-exception monad over it.
    Coordinates are binary64 numbers at run time; here a number is the
    rational it denotes ([Qc]), and the operations on coordinates are
    written as the source writes them, without the rounding. What is proved
    of them is what they compute, not an algebraic law that rounding
    breaks; where a claim is about the arithmetic itself, the round trip of
    a shift, the addition is the rounded one (section Floating point). *)

From stdpp Require Import base option list strings gmap fin_maps numbers pretty.
From Stdlib Require Import QArith Qcanon Qround SpecFloat.

Local Open Scope Qc_scope.

(** ** Values *)

Definition loc := positive.

(** An integer as a coordinate. *)
Definition num (z : Z) : Qc := Q2Qc (inject_Z z).

(** One row of the [xyxy] array: columns 0..3. *)
Record box := Box { x_min : Qc; y_min : Qc; x_max : Qc; y_max : Qc }.

(** Elements of the one-dimensional columns of a detection collection. *)
Inductive elem :=
| ANone
| ABool (b : bool)
| AInt (z : Z)
| AFloat (q : Qc)
| AStr (s : string)
| AMask (m : list (list bool)).

(** [sv.Detections]: a dataclass whose fields reference numpy arrays. *)
Record Detections := MkDetections {
  xyxy : loc;
  mask : option loc;
  confidence : option loc;
  class_id : option loc;
  tracker_id : option loc;
  data : list (string * loc)
}.

(** The tuple that iterating an [sv.Detections] yields for one detection:
    [(xyxy, mask, confidence, class_id, tracker_id, data)]. *)
Record row := Row {
  r_xyxy : box;
  r_mask : option elem;
  r_confidence : option elem;
  r_class_id : option elem;
  r_tracker_id : option elem;
  r_data : list (string * elem)
}.

Inductive pyval :=
| VAtom (a : elem)
| VList (l : list elem)
| VSet (l : list elem)
| VImage (width height : Z)
| VDetection (r : row)
| VDetections (D : Detections).

(** [str(type(v))] *)
Definition type_repr (v : pyval) : string :=
  match v with
  | VAtom ANone => "<class 'NoneType'>"
  | VAtom (ABool _) => "<class 'bool'>"
  | VAtom (AInt _) => "<class 'int'>"
  | VAtom (AFloat _) => "<class 'float'>"
  | VAtom (AStr _) => "<class 'str'>"
  | VAtom (AMask _) => "<class 'numpy.ndarray'>"
  | VList _ => "<class 'list'>"
  | VSet _ => "<class 'set'>"
  | VImage _ _ =>
      "<class 'inference.core.workflows.execution_engine.entities.base.WorkflowImageData'>"
  | VDetection _ => "<class 'tuple'>"
  | VDetections _ => "<class 'supervision.detection.core.Detections'>"
  end.

(** ** Heap, exceptions, and the monad of Python programs *)

Inductive cell :=
| CBoxes (rows : list box)             (* an (n, 4) array of floats *)
| CCol (col : list elem)               (* a one-dimensional column *)
| CDict (d : gmap string pyval).       (* a dict of named parameters *)

Inductive exn :=
| InvalidInputTypeError (public_message context : string)
| EvaluationEngineError (public_message : string)
| KeyError (key : string)
| AttributeError (message : string)
| IndexError (message : string)
| ValueError (message : string)
| SystemError (message : string). (* a dangling or ill-typed reference *)

Inductive result (A : Type) :=
| Ok (a : A)
| Raise (e : exn).
Arguments Ok {A} a.
Arguments Raise {A} e.

(** [calls] logs, in order, the argument of every invocation of a callback
    (the dictionary it was handed, as it stood at the call). *)
Record state := State {
  heap : gmap loc cell;
  calls : list (gmap string pyval)
}.

Definition M (A : Type) : Type := state → state * result A.

Definition ret {A} (a : A) : M A := λ s, (s, Ok a).
Definition raise {A} (e : exn) : M A := λ s, (s, Raise e).
Definition bind {A B} (m : M A) (k : A → M B) : M B :=
  λ s, match m s with
       | (s', Ok a) => k a s'
       | (s', Raise e) => (s', Raise e)
       end.

Declare Scope py_scope.
Delimit Scope py_scope with py.
Notation "x <- m ;; k" := (bind m (λ x, k))
  (at level 100, m at next level, right associativity) : py_scope.
Notation "m ;;; k" := (bind m (λ _, k))
  (at level 100, right associativity) : py_scope.
Local Open Scope py_scope.

Definition lift {A} (r : result A) : M A := λ s, (s, r).

Definition alloc (c : cell) : M loc :=
  λ s, let l := fresh (dom (heap s)) in
       (State (<[l := c]> (heap s)) (calls s), Ok l).

Definition store (l : loc) (c : cell) : M unit :=
  λ s, (State (<[l := c]> (heap s)) (calls s), Ok tt).

Definition read_boxes (l : loc) : M (list box) :=
  λ s, match heap s !! l with
       | Some (CBoxes bs) => (s, Ok bs)
       | _ => (s, Raise (SystemError "not a coordinate array"))
       end.

Definition read_col (l : loc) : M (list elem) :=
  λ s, match heap s !! l with
       | Some (CCol c) => (s, Ok c)
       | _ => (s, Raise (SystemError "not a column"))
       end.

Definition read_dict (l : loc) : M (gmap string pyval) :=
  λ s, match heap s !! l with
       | Some (CDict d) => (s, Ok d)
       | _ => (s, Raise (SystemError "not a dict"))
       end.

(** Invoking a Python callable on a dictionary: the callable reads the
    dictionary and either returns or raises. *)
Definition call {A} (f : gmap string pyval → result A)
    (d : gmap string pyval) : M A :=
  λ s, (State (heap s) (calls s ++ [d]), f d).

Fixpoint for_each {A B} (body : A → M B) (l : list A) : M (list B) :=
  match l with
  | [] => ret []
  | x :: l' => y <- body x ;; ys <- for_each body l' ;; ret (y :: ys)
  end.

(** ** The part of [supervision] and [numpy] the code relies on *)

(** The contents of a detection collection, read off the heap. *)
Record DetectionsData := Data {
  d_xyxy : list box;
  d_mask : option (list elem);
  d_confidence : option (list elem);
  d_class_id : option (list elem);
  d_tracker_id : option (list elem);
  d_data : list (string * list elem)
}.

(** [arr[m]] for a list of booleans [m]: boolean-mask selection. *)
Fixpoint mask_select {A} (l : list A) (m : list bool) : list A :=
  match l, m with
  | x :: l', b :: m' =>
      if b then x :: mask_select l' m' else mask_select l' m'
  | _, _ => []
  end.

Definition getitem_array {A} (l : list A) (m : list bool) : result (list A) :=
  if decide (length m = length l) then Ok (mask_select l m)
  else Raise (IndexError "boolean index did not match indexed array").

(** [Detections.__iter__]: one tuple per row of [xyxy], the optional columns
    read at the same index, [None] for an absent column. *)
Fixpoint rows_from (bx : list box) (mk cf ci ti : option (list elem))
    (dt : list (string * list elem)) : list row :=
  match bx with
  | [] => []
  | b :: bx' =>
      Row b (mk ≫= head) (cf ≫= head) (ci ≫= head) (ti ≫= head)
          (omap (λ kc, pair kc.1 <$> head kc.2) dt)
      :: rows_from bx' (tail <$> mk) (tail <$> cf) (tail <$> ci) (tail <$> ti)
                   (prod_map id tail <$> dt)
  end.

Definition rows (dd : DetectionsData) : list row :=
  rows_from (d_xyxy dd) (d_mask dd) (d_confidence dd) (d_class_id dd)
            (d_tracker_id dd) (d_data dd).

(** [Detections.__getitem__] on the contents. *)
Definition select_data (dd : DetectionsData) (m : list bool) : DetectionsData :=
  Data (mask_select (d_xyxy dd) m)
       ((λ c, mask_select c m) <$> d_mask dd)
       ((λ c, mask_select c m) <$> d_confidence dd)
       ((λ c, mask_select c m) <$> d_class_id dd)
       ((λ c, mask_select c m) <$> d_tracker_id dd)
       (prod_map id (λ c, mask_select c m) <$> d_data dd).

(** Every column has one entry per row of [xyxy] (what
    [sv.Detections.__post_init__] validates). *)
Definition aligned (n : nat) (c : option (list elem)) : Prop :=
  match c with None => True | Some l => length l = n end.

Definition wf_data (dd : DetectionsData) : Prop :=
  let n := length (d_xyxy dd) in
  aligned n (d_mask dd) ∧ aligned n (d_confidence dd) ∧
  aligned n (d_class_id dd) ∧ aligned n (d_tracker_id dd) ∧
  Forall (λ kc, length kc.2 = n) (d_data dd).

Definition load_opt (o : option loc) : M (option (list elem)) :=
  match o with
  | None => ret None
  | Some l => c <- read_col l ;; ret (Some c)
  end.

Fixpoint load_data (dt : list (string * loc)) : M (list (string * list elem)) :=
  match dt with
  | [] => ret []
  | (k, l) :: dt' =>
      c <- read_col l ;; rest <- load_data dt' ;; ret ((k, c) :: rest)
  end.

Definition load (D : Detections) : M DetectionsData :=
  bx <- read_boxes (xyxy D) ;;
  mk <- load_opt (mask D) ;;
  cf <- load_opt (confidence D) ;;
  ci <- load_opt (class_id D) ;;
  ti <- load_opt (tracker_id D) ;;
  dt <- load_data (data D) ;;
  ret (Data bx mk cf ci ti dt).

(** The contents of [D] in heap [h], when every reference is live. *)
Definition contents (h : gmap loc cell) (D : Detections) : option DetectionsData :=
  match load D (State h []) with
  | (_, Ok dd) => Some dd
  | (_, Raise _) => None
  end.

(** [for detection in detections] *)
Definition iter (D : Detections) : M (list row) :=
  dd <- load D ;; ret (rows dd).

(** [detections[m]]: a new collection whose arrays are fresh. *)
Definition getitem_col (l : loc) (m : list bool) : M loc :=
  c <- read_col l ;; c' <- lift (getitem_array c m) ;; alloc (CCol c').

Definition getitem_opt (o : option loc) (m : list bool) : M (option loc) :=
  match o with
  | None => ret None
  | Some l => l' <- getitem_col l m ;; ret (Some l')
  end.

Fixpoint getitem_data (dt : list (string * loc)) (m : list bool)
    : M (list (string * loc)) :=
  match dt with
  | [] => ret []
  | (k, l) :: dt' =>
      l' <- getitem_col l m ;; rest <- getitem_data dt' m ;; ret ((k, l') :: rest)
  end.

Definition getitem (D : Detections) (m : list bool) : M Detections :=
  bx <- read_boxes (xyxy D) ;;
  bx' <- lift (getitem_array bx m) ;;
  x <- alloc (CBoxes bx') ;;
  mk <- getitem_opt (mask D) m ;;
  cf <- getitem_opt (confidence D) m ;;
  ci <- getitem_opt (class_id D) m ;;
  ti <- getitem_opt (tracker_id D) m ;;
  dt <- getitem_data (data D) m ;;
  ret (MkDetections x mk cf ci ti dt).

(** [copy.copy] of a dict: a new dict object with the same bindings. *)
Definition copy (l : loc) : M loc :=
  d <- read_dict l ;; alloc (CDict d).

(** [d[k] = v] *)
Definition dict_set (l : loc) (k : string) (v : pyval) : M unit :=
  d <- read_dict l ;; store l (CDict (<[k := v]> d)).

(** [copy.deepcopy]: every array reachable from the object is copied once;
    [memo] maps an original to its copy, so sharing is preserved. *)
Definition deepcopy_loc (memo : gmap loc loc) (l : loc) : M (gmap loc loc * loc) :=
  match memo !! l with
  | Some l' => ret (memo, l')
  | None =>
      λ s, match heap s !! l with
           | Some (CBoxes bs) =>
               (l' <- alloc (CBoxes bs) ;; ret (<[l := l']> memo, l')) s
           | Some (CCol c) =>
               (l' <- alloc (CCol c) ;; ret (<[l := l']> memo, l')) s
           | _ => (s, Raise (SystemError "not an array"))
           end
  end.

Definition deepcopy_opt (memo : gmap loc loc) (o : option loc)
    : M (gmap loc loc * option loc) :=
  match o with
  | None => ret (memo, None)
  | Some l => ml <- deepcopy_loc memo l ;; ret (ml.1, Some ml.2)
  end.

Fixpoint deepcopy_data (memo : gmap loc loc) (dt : list (string * loc))
    : M (gmap loc loc * list (string * loc)) :=
  match dt with
  | [] => ret (memo, [])
  | (k, l) :: dt' =>
      ml <- deepcopy_loc memo l ;;
      mr <- deepcopy_data ml.1 dt' ;;
      ret (mr.1, (k, ml.2) :: mr.2)
  end.

Definition deepcopy (D : Detections) : M Detections :=
  a <- deepcopy_loc ∅ (xyxy D) ;;
  b <- deepcopy_opt a.1 (mask D) ;;
  c <- deepcopy_opt b.1 (confidence D) ;;
  d <- deepcopy_opt c.1 (class_id D) ;;
  e <- deepcopy_opt d.1 (tracker_id D) ;;
  f <- deepcopy_data e.1 (data D) ;;
  ret (MkDetections a.2 b.2 c.2 d.2 e.2 f.2).

(** [arr += [a, b, c, d]]: broadcast in-place addition on an (n, 4) array,
    written without the rounding of the sums; [box_add_float64] below is
    the addition with it. *)
Definition box_add (delta b : box) : box :=
  Box (x_min b + x_min delta) (y_min b + y_min delta)
      (x_max b + x_max delta) (y_max b + y_max delta).

Definition iadd (l : loc) (delta : box) : M unit :=
  bs <- read_boxes l ;; store l (CBoxes (box_add delta <$> bs)).

(** [Detections.box_area], written without the rounding of the differences
    and of the product. *)
Definition box_area (b : box) : Qc := (x_max b - x_min b) * (y_max b - y_min b).

(** ** Names the module imports from files that are not among the sources *)

(** Modelled from the spec: the enum of [entities/enums.py], which is not
    among the sources, with the eight properties section 4.1 requires (the
    keys of the registry below); [OTHER] stands for any other key a caller
    may pass as [property_name]. *)
Inductive DetectionsProperty :=
| CONFIDENCE | CLASS_NAME | X_MIN | Y_MIN | X_MAX | Y_MAX | CLASS_ID | SIZE
| OTHER (name : string).

Definition property_repr (p : DetectionsProperty) : string :=
  match p with
  | CONFIDENCE => "confidence" | CLASS_NAME => "class_name"
  | X_MIN => "x_min" | Y_MIN => "y_min" | X_MAX => "x_max" | Y_MAX => "y_max"
  | CLASS_ID => "class_id" | SIZE => "size"
  | OTHER name => name
  end.

(** [operations/utils.py] ([safe_stringify]) and [entities/operations.py]
    ([DEFAULT_OPERAND_NAME]) are taken as parameters. *)
Class Imports := {
  safe_stringify : pyval → string;
  DEFAULT_OPERAND_NAME : string
}.

(** ** [operations/detections/base.py] *)

(** [d[k]] on a dict, listed in insertion order. *)
Definition dict_lookup {A} (k : string) (d : list (string * A)) : option A :=
  snd <$> List.find (λ kv, bool_decide (kv.1 = k)) d.

(** [column.tolist()] on an optional column of the collection. *)
Definition tolist (o : option loc) : M pyval :=
  match o with
  | Some l => c <- read_col l ;; ret (VList c)
  | None => raise (AttributeError "'NoneType' object has no attribute 'tolist'")
  end.

(** [detections.xyxy[:, i].tolist()], and [box_area] likewise. *)
Definition xyxy_column (f : box → Qc) (D : Detections) : M pyval :=
  bs <- read_boxes (xyxy D) ;; ret (VList ((λ b, AFloat (f b)) <$> bs)).

Definition PROPERTIES_EXTRACTORS (p : DetectionsProperty)
    : option (Detections → M pyval) :=
  match p with
  | CONFIDENCE => Some (λ detections, tolist (confidence detections))
  | CLASS_NAME => Some (λ detections,
      match dict_lookup "class_name" (data detections) with
      | Some l => tolist (Some l)
      | None => raise (KeyError "class_name")
      end)
  | X_MIN => Some (xyxy_column x_min)
  | Y_MIN => Some (xyxy_column y_min)
  | X_MAX => Some (xyxy_column x_max)
  | Y_MAX => Some (xyxy_column y_max)
  | CLASS_ID => Some (λ detections, tolist (class_id detections))
  | SIZE => Some (xyxy_column box_area)
  | OTHER _ => None
  end.

Section base.
Context `{Imports}.

Definition extract_detections_property (detections : pyval)
    (property_name : DetectionsProperty) (execution_context : string) : M pyval :=
  match detections with
  | VDetections D =>
      match PROPERTIES_EXTRACTORS property_name with
      | Some extractor => extractor D
      | None => raise (KeyError (property_repr property_name))
      end
  | _ =>
      let value_as_str := safe_stringify detections in
      raise (InvalidInputTypeError
        ("Executing extract_detections_property(...) in context "
           +:+ execution_context
           +:+ ", expected sv.Detections object as value, got "
           +:+ value_as_str +:+ " of type " +:+ type_repr detections)
        ("step_execution | roboflow_query_language_evaluation | "
           +:+ execution_context))
  end.

Definition filter_detections (detections : pyval)
    (filtering_fun : gmap string pyval → result bool)
    (global_parameters : loc) : M pyval :=
  match detections with
  | VDetections D =>
      local_parameters <- copy global_parameters ;;
      detection_rows <- iter D ;;
      result <- for_each (λ detection,
          dict_set local_parameters DEFAULT_OPERAND_NAME (VDetection detection) ;;;
          d <- read_dict local_parameters ;;
          call filtering_fun d) detection_rows ;;
      D' <- getitem D result ;;
      ret (VDetections D')
  | _ =>
      let value_as_str := safe_stringify detections in
      raise (InvalidInputTypeError
        ("Executing filter_detections(...), expected sv.Detections object as value, "
           +:+ "got " +:+ value_as_str +:+ " of type " +:+ type_repr detections)
        "step_execution | roboflow_query_language_evaluation")
  end.

Definition offset_detections (value : pyval) (offset_x offset_y : Qc) : M pyval :=
  match value with
  | VDetections D =>
      detections_copy <- deepcopy D ;;
      iadd (xyxy detections_copy)
           (Box (- offset_x / 2) (- offset_y / 2) (offset_x / 2) (offset_y / 2)) ;;;
      ret (VDetections detections_copy)
  | _ =>
      let value_as_str := safe_stringify value in
      raise (InvalidInputTypeError
        ("Executing offset_detections(...), expected sv.Detections object as value, "
           +:+ "got " +:+ value_as_str +:+ " of type " +:+ type_repr value)
        "step_execution | roboflow_query_language_evaluation")
  end.

Definition shift_detections (value : pyval) (shift_x shift_y : Qc) : M pyval :=
  match value with
  | VDetections D =>
      detections_copy <- deepcopy D ;;
      iadd (xyxy detections_copy) (Box shift_x shift_y shift_x shift_y) ;;;
      ret (VDetections detections_copy)
  | _ =>
      let value_as_str := safe_stringify value in
      raise (InvalidInputTypeError
        ("Executing shift_detections(...), expected sv.Detections object as value, "
           +:+ "got " +:+ value_as_str +:+ " of type " +:+ type_repr value)
        "step_execution | roboflow_query_language_evaluation")
  end.

End base.

(** ** Pure computations that may raise *)

Definition result_bind {A B} (r : result A) (k : A → result B) : result B :=
  match r with Ok a => k a | Raise e => Raise e end.

#[global] Instance result_mret : MRet result := @Ok.
#[global] Instance result_mbind : MBind result := λ A B k r, result_bind r k.

(** A list comprehension [[f x for x in l]] whose body may raise. *)
Definition comprehension {A B} (f : A → result B) : list A → result (list B) :=
  fix go l :=
    match l with
    | [] => Ok []
    | x :: l' => y ← f x; ys ← go l'; Ok (y :: ys)
    end.

(** [l[i]] on a Python sequence, [i >= 0]. *)
Definition index {A} (l : list A) (i : nat) : result A :=
  match l !! i with
  | Some x => Ok x
  | None => Raise (IndexError "index out of range")
  end.

Definition Qc_min (a b : Qc) : Qc := if Qle_bool a b then a else b.
Definition Qc_max (a b : Qc) : Qc := if Qle_bool a b then b else a.

(** [np.min] / [np.max] of a list: no identity for an empty one. *)
Definition np_min (l : list Qc) : result Qc :=
  match l with
  | [] => Raise (ValueError
      "zero-size array to reduction operation minimum which has no identity")
  | x :: l' => Ok (foldl Qc_min x l')
  end.

Definition np_max (l : list Qc) : result Qc :=
  match l with
  | [] => Raise (ValueError
      "zero-size array to reduction operation maximum which has no identity")
  | x :: l' => Ok (foldl Qc_max x l')
  end.

(** ** [models/foundation/segment_anything/v1.py] *)

Record Point := MkPoint { point_x : Qc; point_y : Qc }.

Record InstanceSegmentationPrediction := MkPrediction {
  pred_x : Qc;
  pred_y : Qc;
  pred_width : Qc;
  pred_height : Qc;
  pred_points : list Point;
  pred_confidence : Qc;
  pred_class : string;
  pred_class_id : Z
}.

Record InstanceSegmentationInferenceResponse := MkResponse {
  predictions : list InstanceSegmentationPrediction;
  image_width : Z;
  image_height : Z
}.

(** A polygon is a list of points, a point a list of coordinates; the
    [mask] of a SAM2 prediction is a list of polygons. *)
Definition polygon := list (list Qc).

(** The body of [for polygon in mask]: the prediction appended for one
    polygon. The centre and the size are the expressions of the source,
    written without the rounding of their operations. *)
Definition polygon_prediction (polygon : polygon)
    (prompt_class_ids : list Z) (prompt_class_names : list string)
    (prediction_id : nat) : result InstanceSegmentationPrediction :=
  x_coords ← comprehension (λ coord, index coord 0) polygon;
  y_coords ← comprehension (λ coord, index coord 1) polygon;
  min_x ← np_min x_coords;
  min_y ← np_min y_coords;
  max_x ← np_max x_coords;
  max_y ← np_max y_coords;
  let center_x := (min_x + max_x) / 2 in
  let center_y := (min_y + max_y) / 2 in
  points ← comprehension
    (λ point, x ← index point 0; y ← index point 1; Ok (MkPoint x y)) polygon;
  class ← index prompt_class_names prediction_id;
  class_id ← index prompt_class_ids prediction_id;
  Ok (MkPrediction center_x center_y (max_x - min_x) (max_y - min_y)
        points (Q2Qc (1 # 2)) class class_id).

(** [for pred in sam2_segmentation_predictions], with [prediction_id]
    counting the predictions. *)
Fixpoint convert_predictions (sam2_segmentation_predictions : list (list polygon))
    (prompt_class_ids : list Z) (prompt_class_names : list string)
    (prediction_id : nat) : result (list InstanceSegmentationPrediction) :=
  match sam2_segmentation_predictions with
  | [] => Ok []
  | mask :: rest =>
      here ← comprehension (λ polygon,
        polygon_prediction polygon prompt_class_ids prompt_class_names
          prediction_id) mask;
      later ← convert_predictions rest prompt_class_ids prompt_class_names
                (S prediction_id);
      Ok (here ++ later)
  end.

Definition _convert_sam2_segmentation_response_to_inference_instances_seg_response
    (sam2_segmentation_predictions : list (list polygon))
    (image : Z * Z) (prompt_class_ids : list Z) (prompt_class_names : list string)
    : result InstanceSegmentationInferenceResponse :=
  let image_width := image.1 in
  let image_height := image.2 in
  let n := length sam2_segmentation_predictions in
  let '(prompt_class_ids, prompt_class_names) :=
    if decide (length prompt_class_ids = 0%nat)
    then (Z.of_nat <$> seq 0 n, pretty <$> seq 0 n)
    else (prompt_class_ids, prompt_class_names) in
  predictions ← convert_predictions sam2_segmentation_predictions
                  prompt_class_ids prompt_class_names 0;
  Ok (MkResponse predictions image_width image_height).

(** ** The statement evaluator *)

(** Modelled from the spec: the tagged variants of section 3 (Operation,
    Operand, Comparator, Statement); the evaluation-engine module that
    declares and evaluates them is not among the sources. *)
Inductive Operation :=
| ExtractDetectionProperty (property_name : DetectionsProperty)
| ExtractImageProperty (property_name : string)
| Multiply (factor : Qc).

(** Modelled from the spec: an operand is the reserved detection slot
    ([operand_name = None]) or a name of the context, with its operations. *)
Record Operand := MkOperand {
  operand_name : option string;
  operations : list Operation
}.

(** Modelled from the spec: the comparator families of section 4.4. *)
Inductive Comparator :=
| NumberLess | NumberLessEqual | NumberGreater | NumberGreaterEqual
| NumberEqual | NumberNotEqual
| InSequence
| Equals.

(** Modelled from the spec: the two logical connectives. *)
Inductive GroupOperator := AND | OR.

(** Modelled from the spec: the statement tree of section 3. *)
#[warnings="-register-all"]
Inductive Statement :=
| BinaryStatement (left_operand : Operand) (comparator : Comparator)
                  (right_operand : Operand)
| StatementGroup (operator : GroupOperator) (statements : list Statement).

#[global] Instance elem_eq_dec : EqDecision elem.
Proof. solve_decision. Defined.

Definition to_number (a : elem) : option Qc :=
  match a with
  | AInt z => Some (Q2Qc (inject_Z z))
  | AFloat q => Some q
  | _ => None
  end.

(** Value equality of two elements: numbers by value, the rest by shape. *)
Definition elem_equal (a b : elem) : bool :=
  match to_number a, to_number b with
  | Some x, Some y => Qeq_bool x y
  | _, _ => bool_decide (a = b)
  end.

Definition type_error {A} (what : string) (v : pyval) : result A :=
  Raise (InvalidInputTypeError
    ("Executing " +:+ what +:+ ", got value of type " +:+ type_repr v)
    "step_execution | roboflow_query_language_evaluation").

(** Modelled from the spec: single-detection extraction (section 4.2), the
    scalar counterpart of the registry; a missing field is a typed failure
    (section 4.1). *)
Definition extract_detection_property (r : row) (p : DetectionsProperty)
    : result pyval :=
  let field (o : option elem) : result pyval :=
    match o with
    | Some a => Ok (VAtom a)
    | None => type_error "extract_detection_property(...)" (VDetection r)
    end in
  match p with
  | CONFIDENCE => field (r_confidence r)
  | CLASS_NAME => field (dict_lookup "class_name" (r_data r))
  | X_MIN => Ok (VAtom (AFloat (x_min (r_xyxy r))))
  | Y_MIN => Ok (VAtom (AFloat (y_min (r_xyxy r))))
  | X_MAX => Ok (VAtom (AFloat (x_max (r_xyxy r))))
  | Y_MAX => Ok (VAtom (AFloat (y_max (r_xyxy r))))
  | CLASS_ID => field (r_class_id r)
  | SIZE => Ok (VAtom (AFloat (box_area (r_xyxy r))))
  | OTHER name => Raise (EvaluationEngineError ("unknown property " +:+ name))
  end.

Section evaluation_engine.
Context `{Imports}.

(** Modelled from the spec: one stage of the operation pipeline (section
    4.2). [h] is the heap the batch-level extraction reads. *)
Definition apply_operation (h : gmap loc cell) (op : Operation) (v : pyval)
    : result pyval :=
  match op with
  | ExtractDetectionProperty p =>
      match v with
      | VDetection r => extract_detection_property r p
      | _ => (extract_detections_property v p "operations" (State h [])).2
      end
  | ExtractImageProperty name =>
      match v with
      | VImage width height =>
          if bool_decide (name = "size") then Ok (VAtom (AInt (width * height)))
          else Raise (EvaluationEngineError ("unknown property " +:+ name))
      | _ => type_error "extract_image_property(...)" v
      end
  | Multiply factor =>
      match v with
      | VAtom a =>
          match to_number a with
          | Some q => Ok (VAtom (AFloat (q * factor)))
          | None => type_error "multiply(...)" v
          end
      | VList l =>
          match mapM to_number l with
          | Some qs => Ok (VList ((λ q, AFloat (q * factor)) <$> qs))
          | None => type_error "multiply(...)" v
          end
      | _ => type_error "multiply(...)" v
      end
  end.

(** Modelled from the spec: the operation pipeline, left to right. *)
Fixpoint apply_operations (h : gmap loc cell) (ops : list Operation) (v : pyval)
    : result pyval :=
  match ops with
  | [] => Ok v
  | op :: ops' => v' ← apply_operation h op v; apply_operations h ops' v'
  end.

(** Modelled from the spec: operand resolution (section 4.3); an absent
    name is an evaluation error. *)
Definition resolve (h : gmap loc cell) (operand : Operand)
    (context : gmap string pyval) : result pyval :=
  let name := default DEFAULT_OPERAND_NAME (operand_name operand) in
  match context !! name with
  | Some base => apply_operations h (operations operand) base
  | None => Raise (EvaluationEngineError ("missing operand " +:+ name))
  end.

Definition compare_numbers (rel : Qc → Qc → bool) (l r : pyval) : result bool :=
  match l, r with
  | VAtom a, VAtom b =>
      match to_number a, to_number b with
      | Some x, Some y => Ok (rel x y)
      | None, _ => type_error "number comparison" l
      | _, None => type_error "number comparison" r
      end
  | VAtom _, _ => type_error "number comparison" r
  | _, _ => type_error "number comparison" l
  end.

(** Modelled from the spec: the comparator set (section 4.4). *)
Definition compare (c : Comparator) (l r : pyval) : result bool :=
  match c with
  | NumberLess => compare_numbers (λ x y, negb (Qle_bool y x)) l r
  | NumberLessEqual => compare_numbers (λ x y, Qle_bool x y) l r
  | NumberGreater => compare_numbers (λ x y, negb (Qle_bool x y)) l r
  | NumberGreaterEqual => compare_numbers (λ x y, Qle_bool y x) l r
  | NumberEqual => compare_numbers (λ x y, Qeq_bool x y) l r
  | NumberNotEqual => compare_numbers (λ x y, negb (Qeq_bool x y)) l r
  | InSequence =>
      match l, r with
      | VAtom a, (VList s | VSet s) => Ok (existsb (elem_equal a) s)
      | VAtom _, _ => type_error "in (Sequence)" r
      | _, _ => type_error "in (Sequence)" l
      end
  | Equals =>
      match l, r with
      | VAtom a, VAtom b => Ok (elem_equal a b)
      | VList s, VList t => Ok (bool_decide (s = t))
      | VSet s, VSet t =>
          Ok (forallb (λ a, existsb (elem_equal a) t) s
              && forallb (λ a, existsb (elem_equal a) s) t)
      | _, _ => type_error "==" r
      end
  end.

Definition combine (operator : GroupOperator) (bs : list bool) : bool :=
  match operator with
  | AND => forallb id bs
  | OR => existsb id bs
  end.

(** Modelled from the spec: the statement evaluator (section 4.5). Every
    child of a group is evaluated, in order; a failure of a child is the
    failure of the group (section 7: no error is swallowed). *)
Fixpoint evaluate (h : gmap loc cell) (S : Statement)
    (context : gmap string pyval) : result bool :=
  match S with
  | BinaryStatement left_operand comparator right_operand =>
      l ← resolve h left_operand context;
      r ← resolve h right_operand context;
      compare comparator l r
  | StatementGroup operator statements =>
      bs ← comprehension (λ child, evaluate h child context) statements;
      Ok (combine operator bs)
  end.

End evaluation_engine.

(** ** Vocabulary of the statements *)

(** [h] holds the contents [dd] at the references of [D]. *)
Definition holds_col (h : gmap loc cell) (o : option loc)
    (oc : option (list elem)) : Prop :=
  match o, oc with
  | None, None => True
  | Some l, Some c => h !! l = Some (CCol c)
  | _, _ => False
  end.

Definition holds_data (h : gmap loc cell) (dt : list (string * loc))
    (dc : list (string * list elem)) : Prop :=
  Forall2 (λ kl kc, kl.1 = kc.1 ∧ h !! kl.2 = Some (CCol kc.2)) dt dc.

Definition holds (h : gmap loc cell) (D : Detections) (dd : DetectionsData) : Prop :=
  h !! xyxy D = Some (CBoxes (d_xyxy dd)) ∧
  holds_col h (mask D) (d_mask dd) ∧
  holds_col h (confidence D) (d_confidence dd) ∧
  holds_col h (class_id D) (d_class_id dd) ∧
  holds_col h (tracker_id D) (d_tracker_id dd) ∧
  holds_data h (data D) (d_data dd).

(** Every array a collection references. *)
Definition locs (D : Detections) : list loc :=
  xyxy D :: option_list (mask D) ++ option_list (confidence D) ++
  option_list (class_id D) ++ option_list (tracker_id D) ++ (snd <$> data D).

(** Nothing that was on the heap before is changed or freed. *)
Definition preserved (h h' : gmap loc cell) : Prop :=
  ∀ l c, h !! l = Some c → h' !! l = Some c.

(** The objects of [D] did not exist in [h]. *)
Definition fresh_in (h : gmap loc cell) (D : Detections) : Prop :=
  Forall (λ l, h !! l = None) (locs D).

Definition with_xyxy (dd : DetectionsData) (bx : list box) : DetectionsData :=
  Data bx (d_mask dd) (d_confidence dd) (d_class_id dd) (d_tracker_id dd)
       (d_data dd).

(** The transforms as the specification words them. *)
Definition offset_box (offset_x offset_y : Qc) (b : box) : box :=
  Box (x_min b - offset_x / 2) (y_min b - offset_y / 2)
      (x_max b + offset_x / 2) (y_max b + offset_y / 2).

Definition shift_box (shift_x shift_y : Qc) (b : box) : box :=
  Box (x_min b + shift_x) (y_min b + shift_y)
      (x_max b + shift_x) (y_max b + shift_y).


(** The data-model invariant of a bounding box. *)
Definition box_ordered (b : box) : Prop := x_min b <= x_max b ∧ y_min b <= y_max b.

Definition is_true (r : result bool) : bool :=
  match r with Ok true => true | _ => false end.

Section vocabulary.
Context `{Imports}.

(** The dictionary a statement is evaluated against for detection [r]:
    the caller's mapping with [r] under the reserved operand name. *)
Definition bound (ctx : gmap string pyval) (r : row) : gmap string pyval :=
  <[DEFAULT_OPERAND_NAME := VDetection r]> ctx.

(** The detections a filter evaluates: all of them, or those up to and
    including the first on which the statement raises. *)
Fixpoint evaluated (f : gmap string pyval → result bool)
    (ctx : gmap string pyval) (rs : list row) : list row :=
  match rs with
  | [] => []
  | r :: rs' =>
      match f (bound ctx r) with
      | Ok _ => r :: evaluated f ctx rs'
      | Raise _ => [r]
      end
  end.

End vocabulary.

(** The value the registry returns for a property, per detection. *)
Definition property_of (p : DetectionsProperty) (r : row) : option elem :=
  match p with
  | CONFIDENCE => r_confidence r
  | CLASS_NAME => dict_lookup "class_name" (r_data r)
  | X_MIN => Some (AFloat (x_min (r_xyxy r)))
  | Y_MIN => Some (AFloat (y_min (r_xyxy r)))
  | X_MAX => Some (AFloat (x_max (r_xyxy r)))
  | Y_MAX => Some (AFloat (y_max (r_xyxy r)))
  | CLASS_ID => r_class_id r
  | SIZE => Some (AFloat (box_area (r_xyxy r)))
  | OTHER _ => None
  end.

(** The fields the data model of section 3 gives every detection. *)
Definition complete (dd : DetectionsData) : Prop :=
  is_Some (d_confidence dd) ∧ is_Some (d_class_id dd) ∧
  is_Some (dict_lookup "class_name" (d_data dd)).

Definition is_array (c : cell) : Prop :=
  match c with CDict _ => False | _ => True end.

(** The invariant of a deep copy in progress: [h0] is the heap the copy
    started from, [memo] the originals copied so far. *)
Definition copied (h0 : gmap loc cell) (memo : gmap loc loc)
    (h : gmap loc cell) : Prop :=
  preserved h0 h ∧
  ∀ l l', memo !! l = Some l' →
    h0 !! l' = None ∧ ∃ c, h0 !! l = Some c ∧ h !! l' = Some c.

(** ** Sample data *)

Definition sample_imports : Imports := {|
  safe_stringify := λ v,
    match v with
    | VAtom (AInt z) => pretty z
    | VAtom (AStr s) => s
    | _ => "<object>"
    end;
  DEFAULT_OPERAND_NAME := "_"
|}.

(** Two detections: a person of area 4000 and a car of area 50; next to
    them a collection holding the single box (100, 100, 200, 200), and the
    parameters [{classes: {person}, image: 500 x 200}]. *)
Definition sample_context : gmap string pyval :=
  <["classes" := VSet [AStr "person"]]> (<["image" := VImage 500 200]> ∅).

Definition sample_heap : gmap loc cell :=
  <[1%positive := CBoxes [Box (num 100) (num 100) (num 180) (num 150);
                           Box (num 10) (num 10) (num 20) (num 15)]]>
  (<[2%positive := CCol [AFloat (Q2Qc (9 # 10)); AFloat (Q2Qc (4 # 10))]]>
  (<[3%positive := CCol [AInt 0; AInt 2]]>
  (<[4%positive := CCol [AStr "person"; AStr "car"]]>
  (<[5%positive := CDict sample_context]>
  (<[6%positive := CBoxes [Box (num 100) (num 100) (num 200) (num 200)]]>
  (<[7%positive := CBoxes []]> ∅)))))).

Definition sample_state : state := State sample_heap [].

Definition sample_detections : Detections :=
  MkDetections 1%positive None (Some 2%positive) (Some 3%positive) None
    [("class_name", 4%positive)].

Definition sample_data : DetectionsData :=
  Data [Box (num 100) (num 100) (num 180) (num 150);
        Box (num 10) (num 10) (num 20) (num 15)] None
       (Some [AFloat (Q2Qc (9 # 10)); AFloat (Q2Qc (4 # 10))])
       (Some [AInt 0; AInt 2]) None
       [("class_name", [AStr "person"; AStr "car"])].

Definition single_box : Detections := MkDetections 6%positive None None None None [].
Definition single_box_data : DetectionsData :=
  Data [Box (num 100) (num 100) (num 200) (num 200)] None None None None [].


(** [class_name in classes AND size >= 0.02 * image.size] *)
Definition sample_statement : Statement :=
  StatementGroup AND [
    BinaryStatement
      (MkOperand None [ExtractDetectionProperty CLASS_NAME])
      InSequence
      (MkOperand (Some "classes") []);
    BinaryStatement
      (MkOperand None [ExtractDetectionProperty SIZE])
      NumberGreaterEqual
      (MkOperand (Some "image")
         [ExtractImageProperty "size"; Multiply (Q2Qc (2 # 100))])
  ].

(** A statement whose right operand names a parameter the sample context
    does not have. *)
Definition statement_with_missing_name : Statement :=
  BinaryStatement
    (MkOperand None [ExtractDetectionProperty CONFIDENCE])
    NumberGreaterEqual
    (MkOperand (Some "threshold") []).

Definition sample_person : row :=
  Row (Box (num 100) (num 100) (num 180) (num 150)) None
      (Some (AFloat (Q2Qc (9 # 10)))) (Some (AInt 0)) None
      [("class_name", AStr "person")].

(** A response of two predictions, the second of which has a polygon
    without points. *)
Definition sample_predictions : list (list polygon) :=
  [ [ [[num 1; num 2]; [num 3; num 5]] ];
    [ [[num 0; num 0]; [num 4; num 4]]; [] ] ].

(** ** Vocabulary of the further properties *)

(** The column a property reads off a collection, when the collection
    has it. *)
Definition property_column (p : DetectionsProperty) (dd : DetectionsData)
    : option (list elem) :=
  match p with
  | CONFIDENCE => d_confidence dd
  | CLASS_NAME => dict_lookup "class_name" (d_data dd)
  | X_MIN => Some ((λ b, AFloat (x_min b)) <$> d_xyxy dd)
  | Y_MIN => Some ((λ b, AFloat (y_min b)) <$> d_xyxy dd)
  | X_MAX => Some ((λ b, AFloat (x_max b)) <$> d_xyxy dd)
  | Y_MAX => Some ((λ b, AFloat (y_max b)) <$> d_xyxy dd)
  | CLASS_ID => d_class_id dd
  | SIZE => Some ((λ b, AFloat (box_area b)) <$> d_xyxy dd)
  | OTHER _ => None
  end.

(** What an extraction raises when that column is absent. *)
Definition missing_column_error (p : DetectionsProperty) : exn :=
  match p with
  | CLASS_NAME => KeyError "class_name"
  | OTHER name => KeyError name
  | _ => AttributeError "'NoneType' object has no attribute 'tolist'"
  end.

(** The properties whose extractor does not read [xyxy]. *)
Definition reads_no_coordinate (p : DetectionsProperty) : bool :=
  match p with
  | CONFIDENCE | CLASS_NAME | CLASS_ID => true
  | _ => false
  end.

(** The conjunction of two filtering functions. *)
Definition both (f g : gmap string pyval → result bool)
    : gmap string pyval → result bool :=
  λ d, a ← f d; b ← g d; Ok (a && b).

(** Which columns a collection has: the optional ones that are present
    and the keys of [data], in order. *)
Definition schema (dd : DetectionsData)
    : bool * bool * bool * bool * list string :=
  (bool_decide (is_Some (d_mask dd)), bool_decide (is_Some (d_confidence dd)),
   bool_decide (is_Some (d_class_id dd)), bool_decide (is_Some (d_tracker_id dd)),
   fst <$> d_data dd).

(** ** More of [models/foundation/segment_anything/v1.py] *)

(** The [Box] of [entities/requests/sam2.py] (not among the sources), with
    the four fields [run_locally] constructs it from. *)
Record PromptBox := MkPromptBox {
  prompt_x : Qc;
  prompt_y : Qc;
  prompt_width : Qc;
  prompt_height : Qc
}.

(** [run_locally], the body of [for x1, y1, x2, y2 in boxes_for_image.xyxy]:
    the box of the prompt, in centre format; the expressions of the source,
    written without the rounding of their operations. *)
Definition box_prompt (b : box) : PromptBox :=
  let x1 := x_min b in
  let y1 := y_min b in
  let x2 := x_max b in
  let y2 := y_max b in
  let width := x2 - x1 in
  let height := y2 - y1 in
  let cx := x1 + width / 2 in
  let cy := y1 + height / 2 in
  MkPromptBox cx cy width height.

(** The exceptions of the block: those above, and the [TypeError] of
    subscripting [None]. *)
Inductive block_exn :=
| Exn (e : exn)
| TypeError (message : string).

Inductive outcome (A : Type) :=
| Returns (a : A)
| Raises (e : block_exn).
Arguments Returns {A} a.
Arguments Raises {A} e.

#[global] Instance outcome_mret : MRet outcome := @Returns.
#[global] Instance outcome_mbind : MBind outcome := λ A B k r,
  match r with Returns a => k a | Raises e => Raises e end.

(** [column[i]] on an optional column of a collection. *)
Definition subscript (column : option (list elem)) (i : nat) : outcome elem :=
  match column with
  | None => Raises (TypeError "'NoneType' object is not subscriptable")
  | Some l =>
      match l !! i with
      | Some x => Returns x
      | None => Raises (Exn (IndexError "index out of range"))
      end
  end.

(** [data[key]] on the [data] of a collection. *)
Definition data_item (dt : list (string * list elem)) (key : string)
    : outcome (list elem) :=
  match dict_lookup key dt with
  | Some c => Returns c
  | None => Raises (Exn (KeyError key))
  end.

(** [run_locally], the loop over the boxes of one image: what it appends
    to [prompt_class_ids] and [prompt_class_names] and the prompts it adds
    to the prompt set, in order. *)
Fixpoint prompt_loop (boxes_for_image : DetectionsData) (xyxy_rows : list box)
    (prompt_index : nat) : outcome (list elem * list elem * list PromptBox) :=
  match xyxy_rows with
  | [] => Returns ([], [], [])
  | b :: xyxy_rows' =>
      class_id ← subscript (d_class_id boxes_for_image) prompt_index;
      column ← data_item (d_data boxes_for_image) "class_name";
      class_name ← subscript (Some column) prompt_index;
      let prompt := box_prompt b in
      rest ← prompt_loop boxes_for_image xyxy_rows' (S prompt_index);
      Returns (class_id :: rest.1.1, class_name :: rest.1.2, prompt :: rest.2)
  end.

(** [run_locally], from [prompt_class_ids = []] to the end of
    [if boxes_for_image is not None]. *)
Definition image_prompts (boxes_for_image : option DetectionsData)
    : outcome (list elem * list elem * list PromptBox) :=
  match boxes_for_image with
  | None => Returns ([], [], [])
  | Some detections => prompt_loop detections (d_xyxy detections) 0
  end.

(** The polygons of a response, each with the index of the prediction it
    belongs to. *)
Fixpoint indexed_polygons (sam2_segmentation_predictions : list (list polygon))
    (prediction_id : nat) : list (nat * polygon) :=
  match sam2_segmentation_predictions with
  | [] => []
  | mask :: rest =>
      (pair prediction_id <$> mask) ++ indexed_polygons rest (S prediction_id)
  end.

(** A polygon the conversion can take: it has a point, and every point
    has an x and a y. *)
Definition well_formed_polygon (p : polygon) : Prop :=
  p ≠ [] ∧ Forall (λ coord, (2 ≤ length coord)%nat) p.

(** A point of a prediction and the coordinates it was read from. *)
Definition reads (coord : list Qc) (pt : Point) : Prop :=
  coord !! 0%nat = Some (point_x pt) ∧ coord !! 1%nat = Some (point_y pt).

(** ** More sample data *)

(** A filtering function that answers [b] for every detection. *)
Definition always (b : bool) : gmap string pyval → result bool := λ _, Ok b.

(** A response of two predictions with one polygon each, for the prompt
    classes [(7, cat)] and [(9, dog)]. *)
Definition sample_response : list (list polygon) :=
  [ [ [[num 1; num 2]; [num 3; num 5]] ];
    [ [[num 0; num 0]; [num 4; num 4]; [num 2; num 6]] ] ].

(** A response in which a point has one coordinate. *)
Definition response_with_short_point : list (list polygon) :=
  [ [ [[num 1; num 2]; [num 3]] ] ].

(** ** Names and compilation of a statement *)


(** Modelled from the spec: the statement tree as a step declares it,
    before it is compiled (sections 3 and 4.4): the comparator of a binary
    statement is still the tag it is looked up by. The two tags the
    workflow of [test_workflow_with_filtering.py] uses are
    ["in (Sequence)"] and ["(Number) >="]. *)
#[warnings="-register-all"]
Inductive StatementDefinition :=
| BinaryStatementDefinition (left_operand : Operand) (comparator_type : string)
                            (right_operand : Operand)
| StatementGroupDefinition (operator : GroupOperator)
                           (statements : list StatementDefinition).

(** Modelled from the spec: the tags of the comparator set. *)
Definition comparator_tag (c : Comparator) : string :=
  match c with
  | NumberLess => "(Number) <"
  | NumberLessEqual => "(Number) <="
  | NumberGreater => "(Number) >"
  | NumberGreaterEqual => "(Number) >="
  | NumberEqual => "(Number) =="
  | NumberNotEqual => "(Number) !="
  | InSequence => "in (Sequence)"
  | Equals => "=="
  end.

Definition comparator_of_tag (tag : string) : option Comparator :=
  List.find (λ c, bool_decide (comparator_tag c = tag))
    [NumberLess; NumberLessEqual; NumberGreater; NumberGreaterEqual;
     NumberEqual; NumberNotEqual; InSequence; Equals].

(** Modelled from the spec: compilation of a statement tree (sections 4.4
    and 7). It resolves the comparator tags, and an unknown tag is the
    build-time error; operands and their operations are taken over as they
    are, so the registry of property extractors is not consulted. *)
Fixpoint compile (definition : StatementDefinition) : result Statement :=
  match definition with
  | BinaryStatementDefinition left_operand comparator_type right_operand =>
      match comparator_of_tag comparator_type with
      | Some comparator =>
          Ok (BinaryStatement left_operand comparator right_operand)
      | None =>
          Raise (EvaluationEngineError ("unknown comparator " +:+ comparator_type))
      end
  | StatementGroupDefinition operator statements =>
      children ← comprehension compile statements;
      Ok (StatementGroup operator children)
  end.

(** ** Floating point *)

(** The arrays of a collection hold binary64 numbers, so [xyxy += ...]
    rounds every sum. Here a binary64 number is the rational it denotes,
    and the addition of numpy is the exact sum followed by the rounding of
    IEEE 754, to nearest with ties to even. Infinities and NaN have no
    counterpart: the rounding is that of results of magnitude at most
    [max64]. *)

(** The integer nearest to [q], the even one of two that are equally near. *)
Definition round_half_even (q : Q) : Z :=
  let f := Qfloor q in
  match (q - inject_Z f ?= 1 # 2)%Q with
  | Lt => f
  | Gt => (f + 1)%Z
  | Eq => if Z.even f then f else (f + 1)%Z
  end.

(** [floor (log2 q)] of a positive [q]. *)
Definition Qlog2 (q : Q) : Z :=
  let e := (Z.log2 (Qnum q) - Z.log2 (Zpos (Qden q)))%Z in
  if Qle_bool (2 ^ e)%Q q then e else (e - 1)%Z.

(** The binary64 number nearest to a positive [q]: an integer of at most
    53 bits times a power of two, of exponent -1074 at least. *)
Definition round64_pos (q : Q) : Q :=
  let e := Z.max (Qlog2 q - 52) (-1074) in
  (inject_Z (round_half_even (q / 2 ^ e)) * 2 ^ e)%Q.

Definition round64 (q : Q) : Q :=
  match Qnum q with
  | Z0 => 0%Q
  | Zpos n => round64_pos (Zpos n # Qden q)
  | Zneg n => (- round64_pos (Zpos n # Qden q))%Q
  end.






Section base_float64.
Context `{Imports}.


End base_float64.





(** The number a finite value of the IEEE specification of the standard
    library ([SpecFloat]) denotes; binary64 is its instance of precision 53
    and maximal exponent 1024. *)
Definition spec_float_value (f : spec_float) : Q :=
  match f with
  | S754_finite s m e => ((if s then -1 else 1) * inject_Z (Zpos m) * 2 ^ e)%Q
  | _ => 0%Q
  end.

(** Binary64 numbers to try the rounding on, each given by an integer and
    an exponent: small integers, 1e16, numbers around 2^53, the binary64
    number nearest to 0.1, subnormal numbers and a large one. *)
Definition binary64_samples : list spec_float :=
  (λ me : Z * Z, binary_normalize 53 1024 me.1 me.2 false) <$>
  [ (0, 0); (1, 0); (3, 0); (-3, 0);
    (10000000000000000, 0); (-10000000000000000, 0);
    (9007199254740991, 0); (-9007199254740993, 1);
    (7205759403792794, -56); (1, -1074); (4503599627370497, -1074);
    (-987654321, -40); (9007199254740991, 960) ]%Z.

(** * Proofs *)

(** ** The monad *)

Lemma bind_ok {A B} (m : M A) (k : A → M B) s s' a :
  m s = (s', Ok a) → bind m k s = k a s'.
Proof. intros E. unfold bind. by rewrite E. Qed.

(** [run H]: take the step of the program whose outcome [H] gives. *)
Tactic Notation "run" open_constr(H) := rewrite (bind_ok _ _ _ _ _ H).

Lemma bind_raise {A B} (m : M A) (k : A → M B) s s' e :
  m s = (s', Raise e) → bind m k s = (s', Raise e).
Proof. intros E. unfold bind. by rewrite E. Qed.

Lemma preserved_refl h : preserved h h.
Proof. by intros l c. Qed.

Lemma preserved_trans h1 h2 h3 :
  preserved h1 h2 → preserved h2 h3 → preserved h1 h3.
Proof. intros H12 H23 l c E. eauto. Qed.

Lemma preserved_insert h l c : h !! l = None → preserved h (<[l := c]> h).
Proof.
  intros Hl k d Hk. rewrite lookup_insert_ne; [done|].
  intros ->. congruence.
Qed.

Lemma preserved_none h h' l : preserved h h' → h' !! l = None → h !! l = None.
Proof.
  intros P E. destruct (h !! l) as [c|] eqn:F; [|done].
  apply P in F. congruence.
Qed.

Lemma alloc_run c s :
  ∃ l, alloc c s = (State (<[l := c]> (heap s)) (calls s), Ok l) ∧
       heap s !! l = None.
Proof.
  exists (fresh (dom (heap s))). split; [done|].
  apply not_elem_of_dom, is_fresh.
Qed.

Lemma read_boxes_run s l bs :
  heap s !! l = Some (CBoxes bs) → read_boxes l s = (s, Ok bs).
Proof. intros E. unfold read_boxes. by rewrite E. Qed.

Lemma read_col_run s l c :
  heap s !! l = Some (CCol c) → read_col l s = (s, Ok c).
Proof. intros E. unfold read_col. by rewrite E. Qed.

Lemma read_dict_run s l d :
  heap s !! l = Some (CDict d) → read_dict l s = (s, Ok d).
Proof. intros E. unfold read_dict. by rewrite E. Qed.

(** ** Contents of a collection *)

Lemma holds_col_mono h h' o oc :
  preserved h h' → holds_col h o oc → holds_col h' o oc.
Proof. intros P. destruct o, oc; simpl; auto. Qed.

Lemma holds_data_mono h h' dt dc :
  preserved h h' → holds_data h dt dc → holds_data h' dt dc.
Proof.
  intros P HF. eapply Forall2_impl; [exact HF|].
  intros kl kc [E F]. auto.
Qed.

Lemma holds_mono h h' D dd : preserved h h' → holds h D dd → holds h' D dd.
Proof.
  intros P (Hx & Hm & Hc & Hi & Ht & Hd).
  repeat split; eauto using holds_col_mono, holds_data_mono.
Qed.

Lemma load_opt_run s o oc :
  holds_col (heap s) o oc → load_opt o s = (s, Ok oc).
Proof.
  destruct o as [l|], oc as [c|]; simpl; try done.
  intros E. by run (read_col_run _ _ _ E).
Qed.

Lemma load_data_run s dt dc :
  holds_data (heap s) dt dc → load_data dt s = (s, Ok dc).
Proof.
  induction 1 as [|[k l] [k' c] dt dc [Ek El] _ IH]; simpl in *; [done|].
  subst k'. run (read_col_run _ _ _ El).
  by run IH.
Qed.

Lemma load_run s D dd : holds (heap s) D dd → load D s = (s, Ok dd).
Proof.
  intros (Hx & Hm & Hc & Hi & Ht & Hd). unfold load.
  run (read_boxes_run _ _ _ Hx).
  run (load_opt_run _ _ _ Hm).
  run (load_opt_run _ _ _ Hc).
  run (load_opt_run _ _ _ Hi).
  run (load_opt_run _ _ _ Ht).
  run (load_data_run _ _ _ Hd).
  by destruct dd.
Qed.

Lemma load_opt_inv s o s' oc :
  load_opt o s = (s', Ok oc) → holds_col (heap s) o oc.
Proof.
  destruct o as [l|]; simpl.
  - unfold bind, read_col. destruct (heap s !! l) as [[| |]|] eqn:E; try done.
    intros [= <- <-]. done.
  - intros [= <- <-]. done.
Qed.

Lemma load_opt_state s o s' r : load_opt o s = (s', r) → s' = s.
Proof.
  destruct o as [l|]; simpl.
  - unfold bind, read_col. destruct (heap s !! l) as [[| |]|]; by intros [= <- <-].
  - by intros [= <- <-].
Qed.

Lemma load_data_inv s dt s' dc :
  load_data dt s = (s', Ok dc) → holds_data (heap s) dt dc.
Proof.
  revert dc. induction dt as [|[k l] dt IH]; intros dc; simpl.
  - intros [= <- <-]. constructor.
  - unfold bind at 1, read_col.
    destruct (heap s !! l) as [[| |]|] eqn:E; try done.
    unfold bind. destruct (load_data dt s) as [s1 [rest|e]] eqn:F; [|done].
    intros [= <- <-]. constructor; [done|]. by apply IH.
Qed.

Lemma load_inv s D s' dd : load D s = (s', Ok dd) → holds (heap s) D dd.
Proof.
  unfold load. unfold bind at 1, read_boxes.
  destruct (heap s !! xyxy D) as [[bs| |]|] eqn:Ex; try done.
  unfold bind at 1. destruct (load_opt (mask D) s) as [s1 [mk|]] eqn:E1; [|done].
  apply load_opt_state in E1 as E1'; subst s1.
  unfold bind at 1. destruct (load_opt (confidence D) s) as [s1 [cf|]] eqn:E2; [|done].
  apply load_opt_state in E2 as E2'; subst s1.
  unfold bind at 1. destruct (load_opt (class_id D) s) as [s1 [ci|]] eqn:E3; [|done].
  apply load_opt_state in E3 as E3'; subst s1.
  unfold bind at 1. destruct (load_opt (tracker_id D) s) as [s1 [ti|]] eqn:E4; [|done].
  apply load_opt_state in E4 as E4'; subst s1.
  unfold bind at 1. destruct (load_data (data D) s) as [s1 [dt|]] eqn:E5; [|done].
  intros [= <- <-].
  repeat split; simpl; eauto using load_opt_inv, load_data_inv.
Qed.

Lemma contents_holds h D dd : contents h D = Some dd ↔ holds h D dd.
Proof.
  unfold contents. split.
  - destruct (load D (State h [])) as [s' [d|e]] eqn:E; [|done].
    intros [= ->]. by apply load_inv in E.
  - intros Hh. by rewrite (load_run (State h []) D dd Hh).
Qed.

Lemma contents_preserved h h' D dd :
  preserved h h' → contents h D = Some dd → contents h' D = Some dd.
Proof. rewrite !contents_holds. apply holds_mono. Qed.

(** ** Boolean-mask selection and iteration *)

Lemma mask_select_nil_r {A} (l : list A) : mask_select l [] = [].
Proof. by destruct l. Qed.

Lemma mask_select_true {A} (c : list A) m :
  head (mask_select c (true :: m)) = head c ∧
  tail (mask_select c (true :: m)) = mask_select (tail c) m.
Proof. by destruct c. Qed.

Lemma mask_select_false {A} (c : list A) m :
  mask_select c (false :: m) = mask_select (tail c) m.
Proof. by destruct c. Qed.

Lemma mask_select_length_le {A} (l : list A) m :
  (length (mask_select l m) ≤ length l)%nat.
Proof.
  revert m. induction l as [|x l IH]; intros [|[] m]; simpl; try lia.
  - specialize (IH m). lia.
  - specialize (IH m). lia.
Qed.

Lemma mask_select_length_eq {A B} (l : list A) (k : list B) m :
  length l = length k → length (mask_select l m) = length (mask_select k m).
Proof.
  revert k m. induction l as [|x l IH]; intros [|y k] [|[] m]; simpl; try done.
  - intros [=]. f_equal. auto.
  - intros [=]. auto.
Qed.

Lemma mask_select_sublist {A} (l : list A) m : mask_select l m `sublist_of` l.
Proof.
  revert m. induction l as [|x l IH]; intros [|[] m]; simpl.
  - constructor.
  - constructor.
  - constructor.
  - apply sublist_nil_l.
  - by apply sublist_skip.
  - by apply sublist_cons.
Qed.

Lemma mask_select_filter {A} (f : A → bool) (l : list A) :
  mask_select l (f <$> l) = List.filter f l.
Proof.
  induction l as [|x l IH]; [done|].
  rewrite fmap_cons. simpl. destruct (f x); by rewrite IH.
Qed.

Lemma rows_from_length bx mk cf ci ti dt :
  length (rows_from bx mk cf ci ti dt) = length bx.
Proof.
  revert mk cf ci ti dt. induction bx as [|b bx IH]; intros; simpl; [done|].
  by rewrite IH.
Qed.

Lemma rows_length dd : length (rows dd) = length (d_xyxy dd).
Proof. apply rows_from_length. Qed.

Lemma select_head_col (c : option (list elem)) m :
  ((λ c : list elem, mask_select c (true :: m)) <$> c) ≫= head = c ≫= head.
Proof. destruct c as [c|]; simpl; [|done]. apply mask_select_true. Qed.

Lemma select_tail_col (c : option (list elem)) (b : bool) m :
  (if b then tail <$> ((λ c : list elem, mask_select c (b :: m)) <$> c)
   else (λ c : list elem, mask_select c (b :: m)) <$> c)
  = (λ c : list elem, mask_select c m) <$> (tail <$> c).
Proof.
  destruct c as [c|], b; simpl; try done; f_equal.
  - apply mask_select_true.
  - apply mask_select_false.
Qed.

Lemma omap_cons {A B} (f : A → option B) x l :
  omap f (x :: l) = match f x with Some y => y :: omap f l | None => omap f l end.
Proof. done. Qed.

Lemma select_head_data (dt : list (string * list elem)) m :
  omap (λ kc, pair kc.1 <$> head kc.2)
       (prod_map id (λ c : list elem, mask_select c (true :: m)) <$> dt)
  = omap (λ kc, pair kc.1 <$> head kc.2) dt.
Proof.
  induction dt as [|[k c] dt IH]; [done|].
  rewrite fmap_cons, !omap_cons, IH. by destruct c.
Qed.

Lemma select_tail_data (dt : list (string * list elem)) (b : bool) m :
  (if b then prod_map id tail <$> (prod_map id (λ c : list elem, mask_select c (b :: m)) <$> dt)
   else prod_map id (λ c : list elem, mask_select c (b :: m)) <$> dt)
  = prod_map id (λ c : list elem, mask_select c m) <$> (prod_map id tail <$> dt).
Proof.
  destruct b; induction dt as [|[k c] dt IH]; try done;
    rewrite !fmap_cons, IH; unfold prod_map at 1 3 4; simpl; do 2 f_equal.
  - apply mask_select_true.
  - apply mask_select_false.
Qed.

(** Selecting column by column selects the tuples. *)
Lemma rows_from_select bx mk cf ci ti dt m :
  rows_from (mask_select bx m)
    ((λ c : list elem, mask_select c m) <$> mk) ((λ c : list elem, mask_select c m) <$> cf)
    ((λ c : list elem, mask_select c m) <$> ci) ((λ c : list elem, mask_select c m) <$> ti)
    (prod_map id (λ c : list elem, mask_select c m) <$> dt)
  = mask_select (rows_from bx mk cf ci ti dt) m.
Proof.
  revert mk cf ci ti dt m.
  induction bx as [|b bx IH]; intros mk cf ci ti dt m; [done|].
  destruct m as [|bm m]; [done|].
  pose proof (select_tail_col mk bm m) as Tm.
  pose proof (select_tail_col cf bm m) as Tc.
  pose proof (select_tail_col ci bm m) as Ti.
  pose proof (select_tail_col ti bm m) as Tt.
  pose proof (select_tail_data dt bm m) as Td.
  destruct bm; simpl.
  - rewrite !select_head_col, select_head_data. f_equal.
    rewrite Tm, Tc, Ti, Tt, Td. apply IH.
  - rewrite Tm, Tc, Ti, Tt, Td. apply IH.
Qed.

Lemma rows_select dd m : rows (select_data dd m) = mask_select (rows dd) m.
Proof. apply rows_from_select. Qed.

Lemma aligned_select n c (l : list box) m :
  aligned n c → length l = n →
  aligned (length (mask_select l m)) ((λ c : list elem, mask_select c m) <$> c).
Proof.
  destruct c as [c|]; simpl; [|done].
  intros <- E. by apply mask_select_length_eq.
Qed.

Lemma wf_data_select dd m : wf_data dd → wf_data (select_data dd m).
Proof.
  intros (Hm & Hc & Hi & Ht & Hd). unfold wf_data. simpl.
  repeat split; eauto using aligned_select.
  rewrite Forall_fmap. eapply Forall_impl; [exact Hd|].
  intros [k c] E. simpl in *. by apply mask_select_length_eq.
Qed.

(** ** [detections[m]] *)

Lemma getitem_array_ok {A} (l : list A) m :
  length m = length l → getitem_array l m = Ok (mask_select l m).
Proof. intros E. unfold getitem_array. by rewrite decide_True. Qed.

Lemma getitem_col_run s l c m :
  heap s !! l = Some (CCol c) → length m = length c →
  ∃ l', getitem_col l m s
        = (State (<[l' := CCol (mask_select c m)]> (heap s)) (calls s), Ok l') ∧
        heap s !! l' = None.
Proof.
  intros E Hm. unfold getitem_col.
  run (read_col_run _ _ _ E).
  unfold bind at 1, lift. rewrite getitem_array_ok by done.
  apply alloc_run.
Qed.

Lemma getitem_opt_run s o oc m :
  holds_col (heap s) o oc → aligned (length m) oc →
  ∃ s' o', getitem_opt o m s = (s', Ok o') ∧
    preserved (heap s) (heap s') ∧ calls s' = calls s ∧
    holds_col (heap s') o' ((λ c : list elem, mask_select c m) <$> oc) ∧
    Forall (λ l, heap s !! l = None) (option_list o').
Proof.
  destruct o as [l|], oc as [c|]; simpl; try done.
  - intros E Hm.
    destruct (getitem_col_run s l c m E) as (l' & R & F); [done|].
    run R. eexists _, _. split; [done|]. simpl.
    split; [by apply preserved_insert|]. split; [done|].
    split; [apply lookup_insert_eq|]. by constructor.
  - intros _ _. exists s, None. repeat split; auto using preserved_refl.
Qed.

Lemma getitem_data_run s dt dc m :
  holds_data (heap s) dt dc → Forall (λ kc, length kc.2 = length m) dc →
  ∃ s' dt', getitem_data dt m s = (s', Ok dt') ∧
    preserved (heap s) (heap s') ∧ calls s' = calls s ∧
    holds_data (heap s') dt'
      (prod_map id (λ c : list elem, mask_select c m) <$> dc) ∧
    Forall (λ l, heap s !! l = None) (snd <$> dt').
Proof.
  revert s dc.
  induction dt as [|[k l] dt IH]; intros s dc Hd Hl;
    inversion Hd as [|? [k' c] ? dc0 [Ek El] Hd']; subst; simpl in *.
  - exists s, []. repeat split; auto using preserved_refl.
  - inversion Hl as [|? ? Hc Hl']; subst. simpl in *.
    destruct (getitem_col_run s l c m El) as (l' & R & F); [done|].
    run R.
    set (s1 := State _ _) in *.
    assert (P1 : preserved (heap s) (heap s1)) by by apply preserved_insert.
    destruct (IH s1 dc0) as (s' & dt' & R' & P & C & H' & F');
      [by apply (holds_data_mono (heap s))|done|].
    run R'. eexists _, _. split; [done|].
    split; [by eapply preserved_trans|]. split; [done|]. split.
    + constructor; [|done]. split; [done|]. simpl.
      apply P. apply lookup_insert_eq.
    + constructor; [done|]. eapply Forall_impl; [exact F'|].
      intros x. simpl. by apply preserved_none.
Qed.

Lemma Forall_fresh_back (h h' : gmap loc cell) (ls : list loc) :
  preserved h h' → Forall (λ l, h' !! l = None) ls →
  Forall (λ l, h !! l = None) ls.
Proof.
  intros P F. eapply Forall_impl; [exact F|].
  intros l. by apply preserved_none.
Qed.

Lemma getitem_run s D dd m :
  holds (heap s) D dd → wf_data dd → length m = length (d_xyxy dd) →
  ∃ s' D', getitem D m s = (s', Ok D') ∧
    preserved (heap s) (heap s') ∧ calls s' = calls s ∧
    holds (heap s') D' (select_data dd m) ∧ fresh_in (heap s) D'.
Proof.
  intros (Hx & Hm & Hc & Hi & Ht & Hd) (Am & Ac & Ai & At & Ad) Em.
  rewrite <- Em in *. unfold getitem.
  run (read_boxes_run _ _ _ Hx).
  unfold bind at 1, lift. rewrite getitem_array_ok by done.
  destruct (alloc_run (CBoxes (mask_select (d_xyxy dd) m)) s) as (x & Rx & Fx).
  run Rx. set (s0 := State _ _) in *.
  assert (P0 : preserved (heap s) (heap s0)) by by apply preserved_insert.
  destruct (getitem_opt_run s0 (mask D) (d_mask dd) m)
    as (s1 & mk & R1 & P1 & C1 & H1 & F1); [by eapply holds_col_mono|done|].
  run R1.
  assert (Q1 : preserved (heap s) (heap s1)) by by eapply preserved_trans.
  destruct (getitem_opt_run s1 (confidence D) (d_confidence dd) m)
    as (s2 & cf & R2 & P2 & C2 & H2 & F2); [by eapply holds_col_mono|done|].
  run R2.
  assert (Q2 : preserved (heap s) (heap s2)) by by eapply preserved_trans.
  destruct (getitem_opt_run s2 (class_id D) (d_class_id dd) m)
    as (s3 & ci & R3 & P3 & C3 & H3 & F3); [by eapply holds_col_mono|done|].
  run R3.
  assert (Q3 : preserved (heap s) (heap s3)) by by eapply preserved_trans.
  destruct (getitem_opt_run s3 (tracker_id D) (d_tracker_id dd) m)
    as (s4 & ti & R4 & P4 & C4 & H4 & F4); [by eapply holds_col_mono|done|].
  run R4.
  assert (Q4 : preserved (heap s) (heap s4)) by by eapply preserved_trans.
  destruct (getitem_data_run s4 (data D) (d_data dd) m)
    as (s5 & dt & R5 & P5 & C5 & H5 & F5); [by eapply holds_data_mono|done|].
  run R5.
  eexists _, _. split; [done|].
  split; [by eapply preserved_trans|].
  split; [by rewrite C5, C4, C3, C2, C1|]. split.
  - repeat split; simpl.
    + apply P5, P4, P3, P2, P1. apply lookup_insert_eq.
    + eauto 8 using holds_col_mono, preserved_trans.
    + eauto 8 using holds_col_mono, preserved_trans.
    + eauto 8 using holds_col_mono, preserved_trans.
    + eauto 8 using holds_col_mono, preserved_trans.
    + done.
  - unfold fresh_in, locs. simpl. constructor; [done|].
    rewrite !Forall_app.
    eauto 10 using Forall_fresh_back.
Qed.

(** ** Comprehensions *)

Lemma comprehension_cons {A B} (f : A → result B) x l :
  comprehension f (x :: l)
  = result_bind (f x) (λ y, result_bind (comprehension f l) (λ ys, Ok (y :: ys))).
Proof. done. Qed.

Lemma comprehension_length {A B} (f : A → result B) l m :
  comprehension f l = Ok m → length m = length l.
Proof.
  revert m. induction l as [|x l IH]; intros m.
  - by intros [= <-].
  - rewrite comprehension_cons. destruct (f x) as [y|]; [|done]. simpl.
    destruct (comprehension f l) as [ys|]; [|done]. simpl.
    intros [= <-]. simpl. f_equal. by apply IH.
Qed.

Lemma comprehension_is_true {A} (f : A → result bool) l m :
  comprehension f l = Ok m → m = (λ x, is_true (f x)) <$> l.
Proof.
  revert m. induction l as [|x l IH]; intros m.
  - by intros [= <-].
  - rewrite comprehension_cons. destruct (f x) as [y|] eqn:E; [|done]. simpl.
    destruct (comprehension f l) as [ys|]; [|done]. simpl.
    intros [= <-]. rewrite (IH ys eq_refl) at 1.
    change (y :: ?k = ?g <$> x :: l) with (y :: k = g x :: (g <$> l)).
    rewrite E. by destruct y.
Qed.

Lemma comprehension_total {A B} (f : A → result B) l :
  (∀ x, x ∈ l → ∃ y, f x = Ok y) → ∃ m, comprehension f l = Ok m.
Proof.
  induction l as [|x l IH]; intros Hl.
  - by exists [].
  - destruct (Hl x) as [y E]; [left|].
    destruct IH as [ys E']; [intros z Hz; apply Hl; by right|].
    exists (y :: ys). by rewrite comprehension_cons, E, E'.
Qed.

Lemma comprehension_raise {A B} (f : A → result B) pre x post e :
  (∀ z, z ∈ pre → ∃ y, f z = Ok y) → f x = Raise e →
  comprehension f (pre ++ x :: post) = Raise e.
Proof.
  intros Hpre Ex. induction pre as [|z pre IH]; cbn [app].
  - by rewrite comprehension_cons, Ex.
  - destruct (Hpre z) as [y E]; [left|].
    rewrite comprehension_cons, E. simpl. rewrite IH; [done|].
    intros w Hw. apply Hpre. by right.
Qed.

Lemma comprehension_map {A B} (f : A → B) l :
  comprehension (λ x, Ok (f x)) l = Ok (f <$> l).
Proof.
  induction l as [|x l IH]; [done|].
  rewrite comprehension_cons, IH. done.
Qed.

(** ** The filtering loop *)

Section filter_proofs.
Context `{Imports}.

Lemma evaluated_all f ctx rs :
  (∀ r, r ∈ rs → ∃ b, f (bound ctx r) = Ok b) → evaluated f ctx rs = rs.
Proof.
  induction rs as [|r rs IH]; intros Hrs; simpl; [done|].
  destruct (Hrs r) as [b ->]; [left|]. f_equal. apply IH.
  intros z Hz. apply Hrs. by right.
Qed.

Lemma evaluated_raise f ctx pre r post e :
  (∀ z, z ∈ pre → ∃ b, f (bound ctx z) = Ok b) → f (bound ctx r) = Raise e →
  evaluated f ctx (pre ++ r :: post) = pre ++ [r].
Proof.
  intros Hpre Er. induction pre as [|z pre IH]; simpl.
  - by rewrite Er.
  - destruct (Hpre z) as [b ->]; [left|]. f_equal. apply IH.
    intros w Hw. apply Hpre. by right.
Qed.

Lemma evaluated_prefix f ctx rs : evaluated f ctx rs `prefix_of` rs.
Proof.
  induction rs as [|r rs IH]; simpl; [done|].
  destruct (f (bound ctx r)).
  - by apply prefix_cons.
  - by exists rs.
Qed.

Lemma copy_run s g d :
  heap s !! g = Some (CDict d) →
  ∃ lp, copy g s = (State (<[lp := CDict d]> (heap s)) (calls s), Ok lp) ∧
        heap s !! lp = None.
Proof.
  intros E. unfold copy. run (read_dict_run _ _ _ E).
  apply alloc_run.
Qed.

Lemma dict_set_run s l d k v :
  heap s !! l = Some (CDict d) →
  dict_set l k v s = (State (<[l := CDict (<[k := v]> d)]> (heap s)) (calls s), Ok tt).
Proof.
  intros E. unfold dict_set. by run (read_dict_run _ _ _ E).
Qed.

Local Abbreviation body lp f := (λ detection,
  dict_set lp DEFAULT_OPERAND_NAME (VDetection detection) ;;;
  d <- read_dict lp ;; call f d).

Lemma body_run (f : gmap string pyval → result bool) lp s d0 ctx r :
  heap s !! lp = Some (CDict d0) →
  (∀ v, <[DEFAULT_OPERAND_NAME := v]> d0 = <[DEFAULT_OPERAND_NAME := v]> ctx) →
  body lp f r s
  = (State (<[lp := CDict (bound ctx r)]> (heap s)) (calls s ++ [bound ctx r]),
     f (bound ctx r)).
Proof.
  intros E Hd. cbv beta.
  run (dict_set_run _ _ _ _ _ E).
  rewrite Hd. fold (bound ctx r).
  erewrite bind_ok by (apply read_dict_run; simpl; apply lookup_insert_eq).
  done.
Qed.

Lemma filter_loop_run (f : gmap string pyval → result bool) lp ctx rs :
  ∀ s d0,
    heap s !! lp = Some (CDict d0) →
    (∀ v, <[DEFAULT_OPERAND_NAME := v]> d0 = <[DEFAULT_OPERAND_NAME := v]> ctx) →
    ∃ s' d1,
      for_each (body lp f) rs s
      = (s', comprehension (λ r, f (bound ctx r)) rs) ∧
      heap s' = <[lp := CDict d1]> (heap s) ∧
      calls s' = calls s ++ (bound ctx <$> evaluated f ctx rs).
Proof.
  induction rs as [|r rs IH]; intros s d0 E Hd.
  - exists s, d0. simpl. rewrite insert_id by done. by rewrite app_nil_r.
  - cbn [for_each]. rewrite comprehension_cons. cbn [evaluated].
    pose proof (body_run f lp s d0 ctx r E Hd) as R.
    destruct (f (bound ctx r)) as [b|e] eqn:Ef.
    + run R.
      edestruct (IH (State (<[lp := CDict (bound ctx r)]> (heap s))
                           (calls s ++ [bound ctx r])) (bound ctx r))
        as (s' & d1 & R' & Hh & Hc).
      { simpl. apply lookup_insert_eq. }
      { intros v. unfold bound. apply insert_insert_eq. }
      exists s', d1. split; [|split].
      * unfold bind at 1. rewrite R'. simpl.
        by destruct (comprehension _ rs).
      * rewrite Hh. simpl. apply insert_insert_eq.
      * rewrite Hc. simpl. by rewrite <- app_assoc.
    + rewrite (bind_raise _ _ _ _ _ R). eexists _, _.
      split; [done|]. split; done.
Qed.

(** What one call of [filter_detections] on a collection does. *)
Lemma filter_detections_run s D dd (f : gmap string pyval → result bool) g ctx :
  holds (heap s) D dd → wf_data dd → heap s !! g = Some (CDict ctx) →
  ∃ s',
    preserved (heap s) (heap s') ∧
    calls s' = calls s ++ (bound ctx <$> evaluated f ctx (rows dd)) ∧
    match comprehension (λ r, f (bound ctx r)) (rows dd) with
    | Ok m =>
        ∃ D', filter_detections (VDetections D) f g s = (s', Ok (VDetections D')) ∧
              holds (heap s') D' (select_data dd m) ∧ fresh_in (heap s) D'
    | Raise e => filter_detections (VDetections D) f g s = (s', Raise e)
    end.
Proof.
  intros Hh Hwf Eg. unfold filter_detections.
  destruct (copy_run s g ctx Eg) as (lp & Rc & Flp).
  set (s1 := State (<[lp := CDict ctx]> (heap s)) (calls s)) in *.
  assert (P1 : preserved (heap s) (heap s1)) by by apply preserved_insert.
  assert (Ri : iter D s1 = (s1, Ok (rows dd))).
  { unfold iter. erewrite bind_ok; [done|]. apply load_run.
    by apply (holds_mono (heap s)). }
  destruct (filter_loop_run f lp ctx (rows dd) s1 ctx) as (s2 & d1 & Rl & Hh2 & Hc2).
  { simpl. apply lookup_insert_eq. }
  { done. }
  assert (P2 : preserved (heap s) (heap s2)).
  { rewrite Hh2. simpl. rewrite insert_insert_eq. by apply preserved_insert. }
  run Rc. run Ri.
  destruct (comprehension _ (rows dd)) as [m|e] eqn:Em.
  - apply comprehension_length in Em as Lm. rewrite rows_length in Lm.
    destruct (getitem_run s2 D dd m) as (s3 & D' & Rg & P3 & C3 & H3 & F3);
      [by apply (holds_mono (heap s))|done|done|].
    exists s3. split; [by eapply preserved_trans|].
    split; [by rewrite C3|].
    exists D'. run Rl. run Rg.
    split; [done|]. split; [done|].
    by apply (Forall_fresh_back _ (heap s2)).
  - exists s2. rewrite (bind_raise _ _ _ _ _ Rl). done.
Qed.

End filter_proofs.

(** ** [deepcopy] *)

Lemma deepcopy_loc_run h0 memo s l c :
  copied h0 memo (heap s) → h0 !! l = Some c → is_array c →
  ∃ s' memo' l',
    deepcopy_loc memo l s = (s', Ok (memo', l')) ∧
    copied h0 memo' (heap s') ∧ preserved (heap s) (heap s') ∧
    heap s' !! l' = Some c ∧ h0 !! l' = None ∧ calls s' = calls s.
Proof.
  intros [P Hm] El Hc. unfold deepcopy_loc.
  destruct (memo !! l) as [l'|] eqn:Em.
  - destruct (Hm l l' Em) as (F & c' & E1 & E2).
    assert (c' = c) as -> by congruence.
    exists s, memo, l'.
    split; [done|]. split; [by split|]. split; [apply preserved_refl|done].
  - pose proof (P l c El) as Eh. rewrite Eh.
    destruct (alloc_run c s) as (l' & R & F).
    assert (F0 : h0 !! l' = None) by by eapply preserved_none.
    assert (∃ s', (l' <- alloc c ;; ret (<[l := l']> memo, l')) s
                  = (s', Ok (<[l := l']> memo, l')) ∧
                  heap s' = <[l' := c]> (heap s) ∧ calls s' = calls s)
      as (s' & R' & Hh & Hcalls).
    { eexists. run R. done. }
    exists s', (<[l := l']> memo), l'.
    split; [by destruct c|]. rewrite Hh.
    split; [|split; [by apply preserved_insert|]].
    + split; [eapply preserved_trans; [exact P|by apply preserved_insert]|].
      intros k k' Ek. destruct (decide (k = l)) as [->|Hne].
      * rewrite lookup_insert_eq in Ek. injection Ek as <-.
        split; [done|]. exists c. split; [done|]. apply lookup_insert_eq.
      * rewrite lookup_insert_ne in Ek by done.
        destruct (Hm k k' Ek) as (Fk & ck & E1 & E2).
        split; [done|]. exists ck. split; [done|].
        rewrite lookup_insert_ne; [done|]. intros ->. congruence.
    + split; [apply lookup_insert_eq|]. done.
Qed.

Lemma deepcopy_opt_run h0 memo s o oc :
  copied h0 memo (heap s) → holds_col h0 o oc →
  ∃ s' memo' o',
    deepcopy_opt memo o s = (s', Ok (memo', o')) ∧
    copied h0 memo' (heap s') ∧ preserved (heap s) (heap s') ∧
    holds_col (heap s') o' oc ∧ Forall (λ l, h0 !! l = None) (option_list o') ∧
    calls s' = calls s.
Proof.
  intros Hc. destruct o as [l|], oc as [c|]; simpl; try done.
  - intros El.
    destruct (deepcopy_loc_run h0 memo s l (CCol c) Hc El I)
      as (s' & memo' & l' & R & Hc' & P & E & F & C).
    run R. eexists _, _, _. split; [done|].
    simpl. split; [done|]. split; [done|]. split; [done|].
    split; [by constructor|done].
  - intros _. exists s, memo, None.
    split; [done|]. split; [done|]. split; [apply preserved_refl|].
    split; [done|]. split; [constructor|done].
Qed.

Lemma deepcopy_data_run h0 dt : ∀ memo s dc,
  copied h0 memo (heap s) → holds_data h0 dt dc →
  ∃ s' memo' dt',
    deepcopy_data memo dt s = (s', Ok (memo', dt')) ∧
    copied h0 memo' (heap s') ∧ preserved (heap s) (heap s') ∧
    holds_data (heap s') dt' dc ∧ Forall (λ l, h0 !! l = None) (snd <$> dt') ∧
    calls s' = calls s.
Proof.
  induction dt as [|[k l] dt IH]; intros memo s dc Hc Hd;
    inversion Hd as [|? [k' c] ? dc0 [Ek El] Hd']; subst; simpl in *.
  - exists s, memo, [].
    split; [done|]. split; [done|]. split; [apply preserved_refl|].
    split; [constructor|]. split; [constructor|done].
  - destruct (deepcopy_loc_run h0 memo s l (CCol c) Hc El I)
      as (s1 & memo1 & l' & R & Hc1 & P1 & E1 & F1 & C1).
    run R. simpl.
    destruct (IH memo1 s1 dc0 Hc1 Hd')
      as (s2 & memo2 & dt' & R2 & Hc2 & P2 & H2 & F2 & C2).
    run R2. eexists _, _, _. split; [done|]. simpl.
    split; [done|]. split; [by eapply preserved_trans|].
    split; [|split; [by constructor|by rewrite C2]].
    constructor; [|done]. split; [done|]. simpl. by apply P2.
Qed.

Lemma copied_start h : copied h ∅ h.
Proof. split; [apply preserved_refl|]. intros l l'. by rewrite lookup_empty. Qed.

Lemma deepcopy_run s D dd :
  holds (heap s) D dd →
  ∃ s' D', deepcopy D s = (s', Ok D') ∧
    preserved (heap s) (heap s') ∧ calls s' = calls s ∧
    holds (heap s') D' dd ∧ fresh_in (heap s) D'.
Proof.
  intros (Hx & Hm & Hc & Hi & Ht & Hd). unfold deepcopy.
  destruct (deepcopy_loc_run (heap s) ∅ s (xyxy D) _ (copied_start _) Hx I)
    as (s0 & m0 & x & R0 & K0 & P0 & E0 & F0 & C0).
  run R0. simpl.
  destruct (deepcopy_opt_run (heap s) m0 s0 _ _ K0 Hm)
    as (s1 & m1 & mk & R1 & K1 & P1 & H1 & F1 & C1).
  run R1. simpl.
  destruct (deepcopy_opt_run (heap s) m1 s1 _ _ K1 Hc)
    as (s2 & m2 & cf & R2 & K2 & P2 & H2 & F2 & C2).
  run R2. simpl.
  destruct (deepcopy_opt_run (heap s) m2 s2 _ _ K2 Hi)
    as (s3 & m3 & ci & R3 & K3 & P3 & H3 & F3 & C3).
  run R3. simpl.
  destruct (deepcopy_opt_run (heap s) m3 s3 _ _ K3 Ht)
    as (s4 & m4 & ti & R4 & K4 & P4 & H4 & F4 & C4).
  run R4. simpl.
  destruct (deepcopy_data_run (heap s) _ m4 s4 _ K4 Hd)
    as (s5 & m5 & dt & R5 & K5 & P5 & H5 & F5 & C5).
  run R5. simpl.
  eexists _, _. split; [done|].
  split; [apply K5|]. split; [by rewrite C5, C4, C3, C2, C1|]. split.
  - repeat split; simpl.
    + apply P5, P4, P3, P2, P1, E0.
    + eauto 8 using holds_col_mono, preserved_trans.
    + eauto 8 using holds_col_mono, preserved_trans.
    + eauto 8 using holds_col_mono, preserved_trans.
    + eauto 8 using holds_col_mono, preserved_trans.
    + done.
  - unfold fresh_in, locs. simpl. constructor; [done|].
    rewrite !Forall_app. auto.
Qed.

(** ** In-place addition on the copy *)

Lemma iadd_run s l bs delta :
  heap s !! l = Some (CBoxes bs) →
  iadd l delta s
  = (State (<[l := CBoxes (box_add delta <$> bs)]> (heap s)) (calls s), Ok tt).
Proof.
  intros E. unfold iadd. by run (read_boxes_run _ _ _ E).
Qed.

Lemma holds_store_xyxy h D dd bs :
  holds h D dd → holds (<[xyxy D := CBoxes bs]> h) D (with_xyxy dd bs).
Proof.
  intros (Hx & Hm & Hc & Hi & Ht & Hd).
  assert (Hcol : ∀ o oc, holds_col h o oc →
            holds_col (<[xyxy D := CBoxes bs]> h) o oc).
  { intros [l|] [c|]; simpl; try done. intros E.
    rewrite lookup_insert_ne; [done|]. intros Heq. congruence. }
  repeat split; simpl; auto.
  - apply lookup_insert_eq.
  - eapply Forall2_impl; [exact Hd|]. intros [k l] [k' c] [E1 E2].
    split; [done|]. simpl in *.
    rewrite lookup_insert_ne; [done|]. intros Heq. congruence.
Qed.

(** The common body of [offset_detections] and [shift_detections]. *)
Lemma copy_and_add_run s D dd delta :
  holds (heap s) D dd →
  ∃ s' D',
    (detections_copy <- deepcopy D ;;
     iadd (xyxy detections_copy) delta ;;;
     ret (VDetections detections_copy)) s = (s', Ok (VDetections D')) ∧
    preserved (heap s) (heap s') ∧ calls s' = calls s ∧
    holds (heap s') D' (with_xyxy dd (box_add delta <$> d_xyxy dd)) ∧
    fresh_in (heap s) D'.
Proof.
  intros Hh.
  destruct (deepcopy_run s D dd Hh) as (s1 & D' & R & P & C & H1 & F).
  run R.
  run (iadd_run _ _ _ delta (proj1 H1)).
  eexists _, _. split; [done|]. simpl.
  split; [|split; [done|split; [by apply holds_store_xyxy|done]]].
  intros l c E. rewrite lookup_insert_ne; [by apply P|].
  intros <-. inversion F as [|? ? Fx _]. congruence.
Qed.

(** ** Box arithmetic *)

Lemma offset_as_add offset_x offset_y b :
  box_add (Box (- offset_x / 2) (- offset_y / 2) (offset_x / 2) (offset_y / 2)) b
  = offset_box offset_x offset_y b.
Proof.
  unfold box_add, offset_box. simpl. f_equal; unfold Qcminus, Qcdiv; ring.
Qed.

Lemma shift_as_add shift_x shift_y b :
  box_add (Box shift_x shift_y shift_x shift_y) b = shift_box shift_x shift_y b.
Proof. done. Qed.



Lemma with_xyxy_id dd : with_xyxy dd (d_xyxy dd) = dd.
Proof. by destruct dd. Qed.


Section transform_proofs.
Context `{Imports}.

Lemma offset_detections_run s D dd offset_x offset_y :
  holds (heap s) D dd →
  ∃ s' D',
    offset_detections (VDetections D) offset_x offset_y s
    = (s', Ok (VDetections D')) ∧
    preserved (heap s) (heap s') ∧ calls s' = calls s ∧
    holds (heap s') D' (with_xyxy dd (offset_box offset_x offset_y <$> d_xyxy dd)) ∧
    fresh_in (heap s) D'.
Proof.
  intros Hh. unfold offset_detections.
  destruct (copy_and_add_run s D dd
    (Box (- offset_x / 2) (- offset_y / 2) (offset_x / 2) (offset_y / 2)) Hh)
    as (s' & D' & R & P & C & H' & F).
  exists s', D'. repeat (split; [done|]). split; [|done].
  erewrite list_fmap_ext; [exact H'|]. intros i b _. by rewrite offset_as_add.
Qed.

Lemma shift_detections_run s D dd shift_x shift_y :
  holds (heap s) D dd →
  ∃ s' D',
    shift_detections (VDetections D) shift_x shift_y s
    = (s', Ok (VDetections D')) ∧
    preserved (heap s) (heap s') ∧ calls s' = calls s ∧
    holds (heap s') D' (with_xyxy dd (shift_box shift_x shift_y <$> d_xyxy dd)) ∧
    fresh_in (heap s) D'.
Proof.
  intros Hh. unfold shift_detections.
  apply (copy_and_add_run s D dd (Box shift_x shift_y shift_x shift_y) Hh).
Qed.

End transform_proofs.

Lemma comprehension_ok_inv {A B} (f : A → result B) l m :
  comprehension f l = Ok m → ∀ x, x ∈ l → ∃ y, f x = Ok y.
Proof.
  revert m. induction l as [|x l IH]; intros m E z Hz.
  - by apply elem_of_nil in Hz.
  - rewrite comprehension_cons in E. destruct (f x) as [y|] eqn:Ex; [|done].
    simpl in E. destruct (comprehension f l) as [ys|]; [|done].
    apply elem_of_cons in Hz as [->|Hz]; eauto.
Qed.

Lemma comprehension_raise_inv {A B} (f : A → result B) l e :
  comprehension f l = Raise e →
  ∃ pre x post, l = pre ++ x :: post ∧
    (∀ z, z ∈ pre → ∃ y, f z = Ok y) ∧ f x = Raise e.
Proof.
  induction l as [|x l IH]; [done|].
  rewrite comprehension_cons. destruct (f x) as [y|e'] eqn:Ex; simpl.
  - destruct (comprehension f l) as [ys|e'']; [done|]. simpl.
    intros [= ->]. destruct IH as (pre & z & post & -> & Hpre & Ez); [done|].
    exists (x :: pre), z, post. split; [done|]. split; [|done].
    intros w Hw. apply elem_of_cons in Hw as [->|Hw]; eauto.
  - intros [= ->]. exists [], x, l. split; [done|]. split; [|done].
    intros w Hw. by apply elem_of_nil in Hw.
Qed.

Lemma comprehension_some_raise {A B} (f : A → result B) l x e :
  x ∈ l → f x = Raise e → ∃ e', comprehension f l = Raise e'.
Proof.
  intros Hx Ex. destruct (comprehension f l) as [m|e'] eqn:E; [|by eexists].
  destruct (comprehension_ok_inv f l m E x Hx) as [y Ey]. congruence.
Qed.

(** ** Binary64 *)

(** On the sum of any two of the sample numbers, among them the ties of
    a shift by 1e16, the rounded exact sum is the sum that the IEEE
    specification of the standard library computes. *)
Lemma round64_as_specified :
  forallb (λ a, forallb (λ b,
    Qeq_bool (round64 (spec_float_value a + spec_float_value b))
             (spec_float_value (SFadd 53 1024 a b)))
    binary64_samples) binary64_samples = true.
Proof. vm_compute. reflexivity. Qed.








Section float64_proofs.
Context `{Imports}.


End float64_proofs.

(** ** Names of a statement *)

Section names.
Context `{Imports}.



End names.

Lemma comparator_of_tag_tag c : comparator_of_tag (comparator_tag c) = Some c.
Proof. by destruct c. Qed.

(** * The claims *)

Section filter_claims.
Context `{Imports}.

(** C1. For a detection collection [D], a compiled statement and a global
    context, [filter_detections] returns the sub-collection of exactly those
    detections on which the statement evaluates true with the detection
    bound under the reserved operand name; the result is no longer than
    [D], and the survivors keep their relative order. *)
Theorem filter_detections_subcollection s D dd
    (statement : gmap string pyval → result bool) g ctx :
  contents (heap s) D = Some dd → wf_data dd →
  heap s !! g = Some (CDict ctx) →
  (∀ r, r ∈ rows dd → ∃ b, statement (bound ctx r) = Ok b) →
  ∃ s' D' dd',
    filter_detections (VDetections D) statement g s = (s', Ok (VDetections D')) ∧
    contents (heap s') D' = Some dd' ∧ wf_data dd' ∧
    rows dd' = List.filter (λ r, is_true (statement (bound ctx r))) (rows dd) ∧
    (length (d_xyxy dd') ≤ length (d_xyxy dd))%nat ∧
    rows dd' `sublist_of` rows dd.
Proof.
  intros Hc Hwf Eg Hok. apply contents_holds in Hc.
  destruct (filter_detections_run s D dd statement g ctx Hc Hwf Eg)
    as (s' & P & C & R).
  destruct (comprehension_total _ _ Hok) as [m Em]. rewrite Em in R.
  destruct R as (D' & R & H' & F).
  exists s', D', (select_data dd m). split; [done|].
  split; [by apply contents_holds|]. split; [by apply wf_data_select|].
  rewrite rows_select. split; [|split].
  - rewrite (comprehension_is_true _ _ _ Em). apply mask_select_filter.
  - apply mask_select_length_le.
  - apply mask_select_sublist.
Qed.

(** C2. During [filter_detections] the statement is evaluated, for each
    detection in order, against the caller's global context with that
    detection bound under the reserved operand name, and with nothing else
    changed; the caller's mapping and the source collection are the same
    after the call as before it, as is every other object that existed. *)
Theorem filter_detections_frame s D dd
    (statement : gmap string pyval → result bool) g ctx :
  contents (heap s) D = Some dd → wf_data dd →
  heap s !! g = Some (CDict ctx) →
  let out := filter_detections (VDetections D) statement g s in
  calls out.1 = calls s ++ (bound ctx <$> evaluated statement ctx (rows dd)) ∧
  evaluated statement ctx (rows dd) `prefix_of` rows dd ∧
  (∀ r, bound ctx r !! DEFAULT_OPERAND_NAME = Some (VDetection r) ∧
        ∀ k, k ≠ DEFAULT_OPERAND_NAME → bound ctx r !! k = ctx !! k) ∧
  heap out.1 !! g = Some (CDict ctx) ∧
  contents (heap out.1) D = Some dd ∧
  preserved (heap s) (heap out.1).
Proof.
  intros Hc Hwf Eg out. apply contents_holds in Hc as Hh.
  destruct (filter_detections_run s D dd statement g ctx Hh Hwf Eg)
    as (s' & P & C & R).
  assert (out.1 = s') as ->.
  { unfold out. destruct (comprehension _ _); [destruct R as (D' & -> & _)|rewrite R];
      done. }
  split; [done|]. split; [apply evaluated_prefix|]. split.
  { intros r. unfold bound. split; [apply lookup_insert_eq|].
    intros k Hk. by apply lookup_insert_ne. }
  split; [by apply P|]. split; [|done].
  by apply (contents_preserved (heap s)).
Qed.


End filter_claims.

Section transform_claims.
Context `{Imports}.

(** C3. On an argument that is not a detection collection, each of
    [extract_detections_property], [filter_detections], [offset_detections]
    and [shift_detections] raises [InvalidInputTypeError], whose message
    carries the safe rendering of the value and its type, and does nothing
    else: nothing is allocated or written and the statement is not
    evaluated. *)
Theorem non_collection_rejected (v : pyval) s property_name execution_context
    (statement : gmap string pyval → result bool) g x y :
  (∀ D, v ≠ VDetections D) →
  let rendered := safe_stringify v +:+ " of type " +:+ type_repr v in
  extract_detections_property v property_name execution_context s
  = (s, Raise (InvalidInputTypeError
      ("Executing extract_detections_property(...) in context "
         +:+ execution_context
         +:+ ", expected sv.Detections object as value, got " +:+ rendered)
      ("step_execution | roboflow_query_language_evaluation | "
         +:+ execution_context))) ∧
  filter_detections v statement g s
  = (s, Raise (InvalidInputTypeError
      ("Executing filter_detections(...), expected sv.Detections object as value, "
         +:+ "got " +:+ rendered)
      "step_execution | roboflow_query_language_evaluation")) ∧
  offset_detections v x y s
  = (s, Raise (InvalidInputTypeError
      ("Executing offset_detections(...), expected sv.Detections object as value, "
         +:+ "got " +:+ rendered)
      "step_execution | roboflow_query_language_evaluation")) ∧
  shift_detections v x y s
  = (s, Raise (InvalidInputTypeError
      ("Executing shift_detections(...), expected sv.Detections object as value, "
         +:+ "got " +:+ rendered)
      "step_execution | roboflow_query_language_evaluation")).
Proof.
  intros Hv rendered. destruct v as [a| | | | |D]; try done.
  by destruct (Hv D).
Qed.



(** C9. The transforms do not clamp or re-validate: there are a collection
    of ordered boxes and a negative offset for which [offset_detections]
    returns a box with [x_min > x_max], and [shift_detections] hands such a
    box on as disordered as it got it. *)
Theorem transforms_do_not_restore_order :
  ∃ s D dd offset_x offset_y,
    contents (heap s) D = Some dd ∧ Forall box_ordered (d_xyxy dd) ∧
    offset_x < 0 ∧
    ∃ s1 D1 dd1 s2 D2 dd2,
      offset_detections (VDetections D) offset_x offset_y s
      = (s1, Ok (VDetections D1)) ∧
      contents (heap s1) D1 = Some dd1 ∧
      Exists (λ b, x_max b < x_min b) (d_xyxy dd1) ∧
      shift_detections (VDetections D1) (num 5) (num 5) s1
      = (s2, Ok (VDetections D2)) ∧
      contents (heap s2) D2 = Some dd2 ∧
      Exists (λ b, x_max b < x_min b) (d_xyxy dd2).
Proof.
  exists sample_state, single_box, single_box_data, (num (-300)), 0.
  assert (Hh : holds (heap sample_state) single_box single_box_data)
    by by apply contents_holds.
  split; [by apply contents_holds|].
  split; [by repeat constructor|]. split; [done|].
  destruct (offset_detections_run _ _ _ (num (-300)) 0 Hh)
    as (s1 & D1 & R1 & P1 & C1 & H1 & F1).
  destruct (shift_detections_run s1 D1 _ (num 5) (num 5) H1)
    as (s2 & D2 & R2 & P2 & C2 & H2 & F2).
  eexists s1, D1, _, s2, D2, _. split; [done|].
  split; [by apply contents_holds|]. split; [by left|]. split; [done|].
  split; [by apply contents_holds|]. by left.
Qed.

End transform_claims.

(** ** Groups of statements *)

Lemma group_and_true {A} (f : A → result bool) l :
  (bs ← comprehension f l; Ok (forallb id bs)) = Ok true
  ↔ Forall (λ x, f x = Ok true) l.
Proof.
  unfold mbind, result_mbind.
  induction l as [|x l IH]; [by split; [constructor|]|].
  rewrite comprehension_cons, Forall_cons.
  destruct (f x) as [[]|] eqn:Ex; simpl;
    destruct (comprehension f l) as [bs|]; simpl in *;
    split; try done; try (by intros [? _]).
  - intros E. split; [done|]. by apply IH.
  - intros [_ F]. by apply IH.
  - intros [_ F]. by apply IH in F.
Qed.

Lemma group_or_true {A} (f : A → result bool) l :
  (bs ← comprehension f l; Ok (existsb id bs)) = Ok true
  ↔ Forall (λ x, ∃ b, f x = Ok b) l ∧ Exists (λ x, f x = Ok true) l.
Proof.
  induction l as [|x l IH].
  - split; [done|]. intros [_ E]. inversion E.
  - rewrite comprehension_cons, Forall_cons, Exists_cons.
    destruct (f x) as [[]|] eqn:Ex; simpl.
    + destruct (comprehension f l) as [bs|] eqn:E; simpl.
      * split; [|done]. intros _. split; [|by left]. split; [by eexists|].
        apply Forall_forall. by apply (comprehension_ok_inv _ _ _ E).
      * split; [done|]. intros [[_ Hl] _].
        destruct (comprehension_total f l) as [m Em]; [|congruence].
        by apply Forall_forall.
    + destruct (comprehension f l) as [bs|] eqn:E; simpl in *.
      * rewrite IH. split.
        -- intros [F E']. split; [split; [by eexists|done]|by right].
        -- intros [[_ F] [?|E']]; done.
      * split; [done|]. intros [[_ Hl] _].
        destruct (comprehension_total f l) as [m Em]; [|congruence].
        by apply Forall_forall.
    + split; [done|]. intros [[[b Hb] _] _]. done.
Qed.

Section evaluator_claims.
Context `{Imports}.

(** C6. An AND group without children evaluates to true and an OR group
    without children to false, in every context. An AND group is true
    exactly when every child evaluates to true; an OR group whose children
    all evaluate is true exactly when at least one of them evaluates to
    true. *)
Theorem statement_group_truth_table h context statements :
  evaluate h (StatementGroup AND []) context = Ok true ∧
  evaluate h (StatementGroup OR []) context = Ok false ∧
  (evaluate h (StatementGroup AND statements) context = Ok true
   ↔ Forall (λ child, evaluate h child context = Ok true) statements) ∧
  (Forall (λ child, ∃ b, evaluate h child context = Ok b) statements →
   (evaluate h (StatementGroup OR statements) context = Ok true
    ↔ Exists (λ child, evaluate h child context = Ok true) statements)).
Proof.
  split; [done|]. split; [done|]. split.
  - apply (group_and_true (λ child, evaluate h child context)).
  - intros Hall.
    pose proof (group_or_true (λ child, evaluate h child context) statements)
      as Hor.
    simpl. unfold combine. split.
    + intros E. by apply Hor in E as [_ E].
    + intros E. by apply Hor.
Qed.

End evaluator_claims.

(** ** The SAM2 conversion *)

Lemma convert_predictions_raise preds ids names mask : ∀ k,
  mask ∈ preds → [] ∈ mask →
  ∃ e, convert_predictions preds ids names k = Raise e.
Proof.
  induction preds as [|m preds IH]; intros k Hm He.
  - by apply elem_of_nil in Hm.
  - cbn [convert_predictions].
    apply elem_of_cons in Hm as [<-|Hm].
    + destruct (comprehension_some_raise
        (λ polygon, polygon_prediction polygon ids names k) mask [] _ He eq_refl)
        as [e ->].
      by exists e.
    + destruct (comprehension _ m) as [here|e]; [|by exists e]. simpl.
      destruct (IH (S k) Hm He) as [e ->]. by exists e.
Qed.

(** C8. A polygon without points is an error of the conversion: computing
    its bounding box raises (the minimum of no coordinates has no value)
    and the conversion of a response that contains such a polygon raises
    instead of returning predictions. *)
Theorem empty_polygon_is_an_error sam2_segmentation_predictions image
    prompt_class_ids prompt_class_names mask :
  mask ∈ sam2_segmentation_predictions → [] ∈ mask →
  (∀ ids names prediction_id,
     polygon_prediction [] ids names prediction_id
     = Raise (ValueError
         "zero-size array to reduction operation minimum which has no identity")) ∧
  ∃ e, _convert_sam2_segmentation_response_to_inference_instances_seg_response
         sam2_segmentation_predictions image prompt_class_ids prompt_class_names
       = Raise e.
Proof.
  intros Hm He. split; [done|].
  unfold _convert_sam2_segmentation_response_to_inference_instances_seg_response.
  destruct (decide _) as [Hz|Hz];
    edestruct (convert_predictions_raise sam2_segmentation_predictions)
      as [err ->]; try done; by exists err.
Qed.

(** ** Columns and tuples *)

Lemma rows_from_xyxy bx mk cf ci ti dt :
  r_xyxy <$> rows_from bx mk cf ci ti dt = bx.
Proof.
  revert mk cf ci ti dt. induction bx as [|b bx IH]; intros; [done|].
  cbn [rows_from]. rewrite fmap_cons, IH. done.
Qed.

Lemma rows_from_confidence bx mk c ci ti dt :
  length c = length bx →
  r_confidence <$> rows_from bx mk (Some c) ci ti dt = Some <$> c.
Proof.
  revert mk c ci ti dt. induction bx as [|b bx IH]; intros mk c ci ti dt E.
  - by destruct c.
  - destruct c as [|a c]; [done|]. injection E as E.
    cbn [rows_from]. rewrite !fmap_cons. simpl. f_equal. by apply IH.
Qed.

Lemma rows_from_class_id bx mk cf c ti dt :
  length c = length bx →
  r_class_id <$> rows_from bx mk cf (Some c) ti dt = Some <$> c.
Proof.
  revert mk cf c ti dt. induction bx as [|b bx IH]; intros mk cf c ti dt E.
  - by destruct c.
  - destruct c as [|a c]; [done|]. injection E as E.
    cbn [rows_from]. rewrite !fmap_cons. simpl. f_equal. by apply IH.
Qed.

Lemma dict_lookup_cons {A} k k' (x : A) d :
  dict_lookup k ((k', x) :: d) = if bool_decide (k' = k) then Some x else dict_lookup k d.
Proof. unfold dict_lookup. simpl. by destruct (bool_decide (k' = k)). Qed.

Lemma dict_lookup_heads k (dt : list (string * list elem)) n c :
  Forall (λ kc, length kc.2 = S n) dt → dict_lookup k dt = Some c →
  dict_lookup k (omap (λ kc, pair kc.1 <$> head kc.2) dt) = head c ∧
  dict_lookup k (prod_map id tail <$> dt) = Some (tail c) ∧
  length c = S n.
Proof.
  induction 1 as [|[k' c'] dt Hl _ IH]; [done|].
  rewrite fmap_cons, omap_cons, dict_lookup_cons. simpl in *.
  destruct c' as [|a c']; [done|]. simpl.
  rewrite !dict_lookup_cons. simpl. destruct (bool_decide (k' = k)).
  - by intros [= <-].
  - apply IH.
Qed.

Lemma rows_from_data_column k bx mk cf ci ti dt c :
  Forall (λ kc, length kc.2 = length bx) dt → dict_lookup k dt = Some c →
  (λ r, dict_lookup k (r_data r)) <$> rows_from bx mk cf ci ti dt = Some <$> c.
Proof.
  revert mk cf ci ti dt c.
  induction bx as [|b bx IH]; intros mk cf ci ti dt c Hl Ek.
  - cbn [rows_from]. simpl in Hl.
    assert (length c = 0%nat) as Hc; [|by destruct c].
    clear -Hl Ek. induction Hl as [|[k' c'] dt Hl _ IH]; [done|].
    rewrite dict_lookup_cons in Ek. destruct (bool_decide _); [|by apply IH].
    by injection Ek as <-.
  - destruct (dict_lookup_heads k dt (length bx) c Hl Ek) as (Eh & Et & Ec).
    cbn [rows_from]. rewrite fmap_cons. cbn [r_data]. rewrite Eh.
    destruct c as [|a c]; [done|]. simpl. f_equal.
    apply IH; [|done].
    rewrite Forall_fmap. eapply Forall_impl; [exact Hl|].
    intros [k' c'] E. simpl in *. destruct c'; simpl in *; lia.
Qed.

Lemma holds_data_lookup h dt dc k c :
  holds_data h dt dc → dict_lookup k dc = Some c →
  ∃ l, dict_lookup k dt = Some l ∧ h !! l = Some (CCol c).
Proof.
  induction 1 as [|[k1 l] [k2 c'] dt dc [E1 E2] _ IH]; [done|].
  simpl in *. subst k2. rewrite !dict_lookup_cons.
  destruct (bool_decide (k1 = k)); [|done].
  intros [= <-]. by exists l.
Qed.

Section extraction_claims.
Context `{Imports}.

Lemma xyxy_column_run s D dd (f : box → Qc) :
  holds (heap s) D dd →
  xyxy_column f D s = (s, Ok (VList ((λ b, AFloat (f b)) <$> d_xyxy dd))) ∧
  Some <$> ((λ b, AFloat (f b)) <$> d_xyxy dd)
  = (λ r, Some (AFloat (f (r_xyxy r)))) <$> rows dd.
Proof.
  intros Hh. split.
  - unfold xyxy_column.
    by run (read_boxes_run _ _ _ (proj1 Hh)).
  - rewrite <- (rows_from_xyxy (d_xyxy dd) (d_mask dd) (d_confidence dd)
                  (d_class_id dd) (d_tracker_id dd) (d_data dd)) at 1.
    fold (rows dd). by rewrite <- !list_fmap_compose.
Qed.

(** A collection without the column a property reads: the extractor
    itself fails, with the error of the attribute or key access. *)
Lemma extract_absent_confidence s D execution_context :
  confidence D = None →
  extract_detections_property (VDetections D) CONFIDENCE execution_context s
  = (s, Raise (AttributeError "'NoneType' object has no attribute 'tolist'")).
Proof. intros E. simpl. by rewrite E. Qed.

(** C10. The registry is consulted when [extract_detections_property] is
    run, after the check of the argument's type: for each of the eight
    registered properties the extractor returns one value per detection,
    aligned with the collection; for any other property name the lookup
    fails with a [KeyError], not an [InvalidInputTypeError]; and on an
    argument that is not a collection the type error is raised whatever the
    property name. Compilation does not detect the unregistered name: a
    statement whose operand extracts the property compiles, whatever the
    property, and it is the evaluation of the compiled statement on a
    context with a collection under the operand's name that raises the
    [KeyError]. *)
Theorem extract_detections_property_lookup s D dd (v : pyval)
    property_name execution_context :
  contents (heap s) D = Some dd → wf_data dd → complete dd →
  match property_name with
  | OTHER name =>
      extract_detections_property (VDetections D) property_name
        execution_context s = (s, Raise (KeyError name))
  | _ =>
      ∃ l, extract_detections_property (VDetections D) property_name
             execution_context s = (s, Ok (VList l)) ∧
           length l = length (d_xyxy dd) ∧
           Some <$> l = property_of property_name <$> rows dd
  end ∧
  match v with
  | VDetections _ => True
  | _ => ∃ message context,
      extract_detections_property v property_name execution_context s
      = (s, Raise (InvalidInputTypeError message context))
  end ∧
  ∀ operand comparator right_operand (context : gmap string pyval),
    let left_operand :=
      MkOperand (Some operand) [ExtractDetectionProperty property_name] in
    compile (BinaryStatementDefinition left_operand
               (comparator_tag comparator) right_operand)
    = Ok (BinaryStatement left_operand comparator right_operand) ∧
    match property_name with
    | OTHER name =>
        evaluate (heap s) (BinaryStatement left_operand comparator right_operand)
          (<[operand := VDetections D]> context)
        = Raise (KeyError name)
    | _ => True
    end.
Proof.
  intros Hc Hwf (Hcf & Hci & Hcn). apply contents_holds in Hc as Hh.
  destruct Hwf as (Am & Ac & Ai & At & Ad).
  destruct Hh as (Hx & Hm & Hf & Hi & Ht & Hd).
  assert (Hh : holds (heap s) D dd) by done.
  split; [|split; [destruct v as [[]| | | | |]; by eauto|]].
  2:{ intros operand comparator right_operand context left_operand. split.
      - simpl. by rewrite comparator_of_tag_tag.
      - destruct property_name; try done.
        assert (E : resolve (heap s) left_operand
                      (<[operand := VDetections D]> context)
                    = Raise (KeyError name)).
        { unfold resolve. simpl. by rewrite lookup_insert_eq. }
        cbn [evaluate]. by rewrite E. }
  destruct property_name; simpl; try done.
  - destruct Hcf as [c Ec]. rewrite Ec in *.
    destruct (confidence D) as [l|] eqn:El; [|done]. simpl in *.
    run (read_col_run _ _ _ Hf).
    exists c. split; [done|]. split; [done|].
    unfold rows. rewrite Ec. symmetry. by apply rows_from_confidence.
  - destruct Hcn as [c Ec].
    destruct (holds_data_lookup _ _ _ _ _ Hd Ec) as (l & El & Eh).
    rewrite El. simpl. run (read_col_run _ _ _ Eh).
    exists c. split; [done|].
    pose proof (rows_from_data_column "class_name" (d_xyxy dd) (d_mask dd)
      (d_confidence dd) (d_class_id dd) (d_tracker_id dd) (d_data dd) c Ad Ec)
      as Er.
    split; [|by symmetry].
    apply (f_equal length) in Er. rewrite !length_fmap in Er.
    by rewrite <- Er, rows_from_length.
  - destruct (xyxy_column_run s D dd x_min Hh) as [-> E].
    eexists. split; [done|]. by rewrite length_fmap.
  - destruct (xyxy_column_run s D dd y_min Hh) as [-> E].
    eexists. split; [done|]. by rewrite length_fmap.
  - destruct (xyxy_column_run s D dd x_max Hh) as [-> E].
    eexists. split; [done|]. by rewrite length_fmap.
  - destruct (xyxy_column_run s D dd y_max Hh) as [-> E].
    eexists. split; [done|]. by rewrite length_fmap.
  - destruct Hci as [c Ec]. rewrite Ec in *.
    destruct (class_id D) as [l|] eqn:El; [|done]. simpl in *.
    run (read_col_run _ _ _ Hi).
    exists c. split; [done|]. split; [done|].
    unfold rows. rewrite Ec. symmetry. by apply rows_from_class_id.
  - destruct (xyxy_column_run s D dd box_area Hh) as [-> E].
    eexists. split; [done|]. by rewrite length_fmap.
Qed.

End extraction_claims.

(** * The claims on the sample data *)

Lemma sample_rows_evaluate r :
  r ∈ rows sample_data →
  ∃ b, @evaluate sample_imports sample_heap sample_statement
         (@bound sample_imports sample_context r) = Ok b.
Proof.
  intros Hr. apply list_elem_of_In in Hr. vm_compute in Hr.
  destruct Hr as [<-|[<-|[]]]; eexists; vm_compute; reflexivity.
Defined.

Lemma sample_wf : wf_data sample_data.
Proof. repeat split. by repeat constructor. Defined.

Lemma sample_complete : complete sample_data.
Proof. repeat split; by eexists. Defined.

(** The example of the specification: of the person of area 4000 and the
    car of area 50, the person survives. *)
Lemma filter_detections_subcollection_witness :
  ∃ s' D' dd',
    @filter_detections sample_imports (VDetections sample_detections)
      (@evaluate sample_imports sample_heap sample_statement) 5%positive
      sample_state = (s', Ok (VDetections D')) ∧
    contents (heap s') D' = Some dd' ∧ wf_data dd' ∧
    rows dd' = List.filter
      (λ r, is_true (@evaluate sample_imports sample_heap sample_statement
                       (@bound sample_imports sample_context r)))
      (rows sample_data) ∧
    (length (d_xyxy dd') ≤ length (d_xyxy sample_data))%nat ∧
    rows dd' `sublist_of` rows sample_data.
Proof.
  apply (@filter_detections_subcollection sample_imports sample_state
           sample_detections sample_data
           (@evaluate sample_imports sample_heap sample_statement)
           5%positive sample_context).
  - vm_compute. reflexivity.
  - exact sample_wf.
  - reflexivity.
  - exact sample_rows_evaluate.
Defined.

Lemma filter_detections_frame_witness :
  let out := @filter_detections sample_imports (VDetections sample_detections)
               (@evaluate sample_imports sample_heap sample_statement)
               5%positive sample_state in
  heap out.1 !! 5%positive = Some (CDict sample_context) ∧
  contents (heap out.1) sample_detections = Some sample_data.
Proof.
  pose proof (@filter_detections_frame sample_imports sample_state
    sample_detections sample_data
    (@evaluate sample_imports sample_heap sample_statement)
    5%positive sample_context) as W.
  destruct W as (_ & _ & _ & Hg & Hd & _).
  - vm_compute. reflexivity.
  - exact sample_wf.
  - reflexivity.
  - split; [exact Hg|exact Hd].
Defined.


(** On the two sample detections the same statement raises at the first
    one, after a single evaluation. *)
Lemma missing_name_on_sample_collection :
  ∃ s',
    @filter_detections sample_imports (VDetections sample_detections)
      (@evaluate sample_imports sample_heap statement_with_missing_name)
      5%positive sample_state
    = (s', Raise (EvaluationEngineError "missing operand threshold")) ∧
    calls s' = [@bound sample_imports sample_context sample_person].
Proof. eexists. split; vm_compute; reflexivity. Qed.

(** The integer 5 in place of a collection. *)
Lemma non_collection_rejected_witness :
  @filter_detections sample_imports (VAtom (AInt 5))
    (@evaluate sample_imports sample_heap sample_statement) 5%positive
    sample_state
  = (sample_state, Raise (InvalidInputTypeError
      "Executing filter_detections(...), expected sv.Detections object as value, got 5 of type <class 'int'>"
      "step_execution | roboflow_query_language_evaluation")).
Proof.
  pose proof (@non_collection_rejected sample_imports (VAtom (AInt 5))
    sample_state SIZE "filter"
    (@evaluate sample_imports sample_heap sample_statement) 5%positive 0 0) as W.
  destruct W as (_ & W & _).
  - intros D. discriminate.
  - exact W.
Defined.





(** For the person of the sample, whose class is allowed and whose area
    is large enough. *)
Lemma statement_group_truth_table_witness :
  let context := @bound sample_imports sample_context sample_person in
  let statements := match sample_statement with
                    | StatementGroup _ statements => statements
                    | _ => []
                    end in
  @evaluate sample_imports sample_heap (StatementGroup OR statements) context
  = Ok true
  ↔ Exists (λ child, @evaluate sample_imports sample_heap child context = Ok true)
      statements.
Proof.
  intros context statements.
  apply (@statement_group_truth_table sample_imports sample_heap context
           statements).
  repeat constructor; eexists; vm_compute; reflexivity.
Defined.

Lemma empty_polygon_is_an_error_witness :
  ∃ e, _convert_sam2_segmentation_response_to_inference_instances_seg_response
         sample_predictions (640%Z, 480%Z) [] [] = Raise e.
Proof.
  apply (empty_polygon_is_an_error sample_predictions (640%Z, 480%Z) [] []
           [ [[num 0; num 0]; [num 4; num 4]]; [] ]).
  - apply list_elem_of_further, list_elem_of_here.
  - apply list_elem_of_further, list_elem_of_here.
Defined.

(** The area, which is registered, and a property [center], which is not:
    the statement [predictions.center >= threshold] compiles, and raises
    when it is evaluated. *)
Lemma extract_detections_property_lookup_witness :
  (∃ l, @extract_detections_property sample_imports
          (VDetections sample_detections) SIZE "filter" sample_state
        = (sample_state, Ok (VList l)) ∧
        length l = 2%nat ∧
        Some <$> l = property_of SIZE <$> rows sample_data) ∧
  @extract_detections_property sample_imports (VDetections sample_detections)
    (OTHER "center") "filter" sample_state
  = (sample_state, Raise (KeyError "center")) ∧
  let left_operand :=
    MkOperand (Some "predictions") [ExtractDetectionProperty (OTHER "center")] in
  let right_operand := MkOperand (Some "threshold") [] in
  compile (BinaryStatementDefinition left_operand "(Number) >=" right_operand)
  = Ok (BinaryStatement left_operand NumberGreaterEqual right_operand) ∧
  @evaluate sample_imports sample_heap
    (BinaryStatement left_operand NumberGreaterEqual right_operand)
    (<["predictions" := VDetections sample_detections]> sample_context)
  = Raise (KeyError "center").
Proof.
  split; [|split].
  - apply (@extract_detections_property_lookup sample_imports sample_state
             sample_detections sample_data (VAtom ANone) SIZE "filter").
    + vm_compute. reflexivity.
    + exact sample_wf.
    + exact sample_complete.
  - apply (@extract_detections_property_lookup sample_imports sample_state
             sample_detections sample_data (VAtom ANone) (OTHER "center")
             "filter").
    + vm_compute. reflexivity.
    + exact sample_wf.
    + exact sample_complete.
  - destruct (@extract_detections_property_lookup sample_imports sample_state
                sample_detections sample_data (VAtom ANone) (OTHER "center")
                "filter") as (_ & _ & Hcompile).
    + vm_compute. reflexivity.
    + exact sample_wf.
    + exact sample_complete.
    + exact (Hcompile "predictions" NumberGreaterEqual
               (MkOperand (Some "threshold") []) sample_context).
Defined.

(** * Further properties of [operations/detections/base.py] *)

(** ** More on boolean-mask selection *)

Lemma mask_select_fmap {A B} (f : A → B) (l : list A) m :
  f <$> mask_select l m = mask_select (f <$> l) m.
Proof.
  revert m. induction l as [|x l IH]; intros [|[] m]; try done.
  - cbn [mask_select fmap list_fmap]. f_equal. apply IH.
  - cbn [mask_select fmap list_fmap]. apply IH.
Qed.

Lemma mask_select_twice {A} (l : list A) (m k : list bool) :
  mask_select (mask_select l m) (mask_select k m)
  = mask_select l (zip_with andb m k).
Proof.
  revert m k. induction l as [|x l IH]; intros [|b m] [|c k]; try done.
  - cbn [zip_with]. by rewrite !mask_select_nil_r.
  - destruct b; simpl.
    + destruct c; by rewrite IH.
    + apply IH.
Qed.

Lemma mask_select_all {A} (l : list A) (m : list bool) :
  (length l ≤ length m)%nat → Forall (λ b, b = true) m → mask_select l m = l.
Proof.
  revert m. induction l as [|x l IH]; intros [|b m] Hl Hm; simpl in *;
    try done; try lia.
  inversion Hm as [|? ? -> Hm']; subst. f_equal. apply IH; [lia|done].
Qed.

Lemma mask_select_none {A} (l : list A) (m : list bool) :
  Forall (λ b, b = false) m → mask_select l m = [].
Proof.
  revert m. induction l as [|x l IH]; intros [|b m] Hm; try done.
  inversion Hm as [|? ? -> Hm']; subst. simpl. by apply IH.
Qed.

Lemma zip_with_andb_fmap {A} (F G : A → bool) (l : list A) :
  zip_with andb (F <$> l) (G <$> l) = (λ x, F x && G x) <$> l.
Proof. induction l as [|x l IH]; [done|]. rewrite !fmap_cons. simpl. by rewrite IH. Qed.

Lemma zip_with_andb_diag (m : list bool) : zip_with andb m m = m.
Proof. induction m as [|[] m IH]; simpl; by rewrite ?IH. Qed.

Lemma select_data_twice dd m k :
  select_data (select_data dd m) (mask_select k m)
  = select_data dd (zip_with andb m k).
Proof.
  unfold select_data. simpl. f_equal.
  - apply mask_select_twice.
  - destruct (d_mask dd); simpl; [f_equal; apply mask_select_twice|done].
  - destruct (d_confidence dd); simpl; [f_equal; apply mask_select_twice|done].
  - destruct (d_class_id dd); simpl; [f_equal; apply mask_select_twice|done].
  - destruct (d_tracker_id dd); simpl; [f_equal; apply mask_select_twice|done].
  - rewrite <- list_fmap_compose. apply list_fmap_ext.
    intros i [key c] _. unfold prod_map. simpl. f_equal. apply mask_select_twice.
Qed.

Lemma select_data_all dd m :
  wf_data dd → (length (d_xyxy dd) ≤ length m)%nat →
  Forall (λ b, b = true) m → select_data dd m = dd.
Proof.
  intros (Am & Ac & Ai & At & Ad) Hl Hm. destruct dd as [bx mk cf ci ti dt].
  unfold select_data. simpl in *.
  assert (Hcol : ∀ c : option (list elem), aligned (length bx) c →
            (λ c : list elem, mask_select c m) <$> c = c).
  { intros [c|] Hc; simpl in *; [|done]. f_equal.
    apply mask_select_all; [lia|done]. }
  rewrite !Hcol by done. f_equal; [by apply mask_select_all|].
  induction Ad as [|[key c] dt Hc _ IH]; [done|].
  rewrite fmap_cons, IH. unfold prod_map at 1. simpl in *. do 2 f_equal.
  apply mask_select_all; [lia|done].
Qed.

Lemma schema_select dd m : schema (select_data dd m) = schema dd.
Proof.
  unfold schema, select_data. simpl.
  rewrite <- list_fmap_compose.
  destruct (d_mask dd), (d_confidence dd), (d_class_id dd), (d_tracker_id dd);
    simpl; f_equal; by apply list_fmap_ext; intros i [key c] _.
Qed.

Lemma dict_lookup_fmap {A B} (g : A → B) k (d : list (string * A)) :
  dict_lookup k (prod_map id g <$> d) = g <$> dict_lookup k d.
Proof.
  induction d as [|[k' x] d IH]; [done|].
  rewrite fmap_cons. unfold prod_map at 1. simpl.
  rewrite !dict_lookup_cons, IH. by destruct (bool_decide (k' = k)).
Qed.

Lemma property_column_select p dd m :
  property_column p (select_data dd m)
  = (λ c : list elem, mask_select c m) <$> property_column p dd.
Proof.
  destruct p; simpl; try done; try (by rewrite mask_select_fmap).
  apply dict_lookup_fmap.
Qed.

Lemma complete_schema dd dd' : schema dd' = schema dd → complete dd → complete dd'.
Proof.
  unfold schema, complete. intros [= Hm Hc Hi Ht Hk] (Cc & Ci & Cn).
  split; [|split].
  - apply (bool_decide_unpack _). rewrite Hc. by apply bool_decide_pack.
  - apply (bool_decide_unpack _). rewrite Hi. by apply bool_decide_pack.
  - clear -Hk Cn. destruct Cn as [c Ec].
    revert dd' Hk. generalize (d_data dd) Ec. clear Ec.
    intros dt Ec dd'. generalize (d_data dd'). clear dd'.
    induction dt as [|[k1 c1] dt IH]; intros [|[k2 c2] dt'] Hk; try done.
    simpl in Hk. injection Hk as -> Hk.
    rewrite dict_lookup_cons in Ec. rewrite dict_lookup_cons.
    destruct (bool_decide (k1 = "class_name")); [by eexists|]. by apply IH.
Qed.

(** ** Filtering, again and in sequence *)

Lemma is_true_both (f g : gmap string pyval → result bool) d :
  is_true (both f g d) = is_true (f d) && is_true (g d).
Proof.
  unfold both, mbind, result_mbind.
  destruct (f d) as [[]|]; simpl; destruct (g d) as [[]|]; done.
Qed.

Lemma both_evaluates (f g : gmap string pyval → result bool) d :
  (∃ a, f d = Ok a) → (∃ b, g d = Ok b) → ∃ c, both f g d = Ok c.
Proof. intros [a Ea] [b Eb]. exists (a && b). unfold both. by rewrite Ea, Eb. Qed.

Section filter_more.
Context `{Imports}.

(** The outcome of a filter whose statement evaluates on every detection. *)
Lemma filter_detections_ok s D dd (f : gmap string pyval → result bool) g ctx :
  holds (heap s) D dd → wf_data dd → heap s !! g = Some (CDict ctx) →
  (∀ r, r ∈ rows dd → ∃ b, f (bound ctx r) = Ok b) →
  ∃ s' D',
    filter_detections (VDetections D) f g s = (s', Ok (VDetections D')) ∧
    preserved (heap s) (heap s') ∧
    holds (heap s') D'
      (select_data dd ((λ r, is_true (f (bound ctx r))) <$> rows dd)) ∧
    fresh_in (heap s) D'.
Proof.
  intros Hh Hwf Eg Hok.
  destruct (filter_detections_run s D dd f g ctx Hh Hwf Eg) as (s' & P & C & R).
  destruct (comprehension_total _ _ Hok) as [m Em]. rewrite Em in R.
  destruct R as (D' & R & H' & F).
  rewrite (comprehension_is_true _ _ _ Em) in H'. eauto 10.
Qed.

(** Two filters in a row. *)
Lemma filter_detections_then s D dd (f f' : gmap string pyval → result bool)
    g ctx :
  holds (heap s) D dd → wf_data dd → heap s !! g = Some (CDict ctx) →
  (∀ r, r ∈ rows dd → ∃ b, f (bound ctx r) = Ok b) →
  (∀ r, r ∈ rows dd → ∃ b, f' (bound ctx r) = Ok b) →
  ∃ s1 D1 s2 D2,
    filter_detections (VDetections D) f g s = (s1, Ok (VDetections D1)) ∧
    filter_detections (VDetections D1) f' g s1 = (s2, Ok (VDetections D2)) ∧
    holds (heap s1) D1
      (select_data dd ((λ r, is_true (f (bound ctx r))) <$> rows dd)) ∧
    holds (heap s2) D2
      (select_data dd (zip_with andb
         ((λ r, is_true (f (bound ctx r))) <$> rows dd)
         ((λ r, is_true (f' (bound ctx r))) <$> rows dd))).
Proof.
  intros Hh Hwf Eg Hf Hf'.
  destruct (filter_detections_ok s D dd f g ctx Hh Hwf Eg Hf)
    as (s1 & D1 & R1 & P1 & H1 & F1).
  set (m := (λ r, is_true (f (bound ctx r))) <$> rows dd) in *.
  destruct (filter_detections_ok s1 D1 (select_data dd m) f' g ctx)
    as (s2 & D2 & R2 & P2 & H2 & F2); [done|by apply wf_data_select|by apply P1| |].
  { intros r Hr. apply Hf'. rewrite rows_select in Hr.
    eapply elem_of_sublist; [exact Hr|apply mask_select_sublist]. }
  exists s1, D1, s2, D2. split; [done|]. split; [done|]. split; [done|].
  rewrite rows_select, mask_select_fmap, select_data_twice in H2. exact H2.
Qed.

(** Filtering by one statement and then by another keeps the detections
    that filtering by their conjunction keeps. *)
Theorem filter_detections_conjunction s D dd
    (f f' : gmap string pyval → result bool) g ctx :
  contents (heap s) D = Some dd → wf_data dd →
  heap s !! g = Some (CDict ctx) →
  (∀ r, r ∈ rows dd → ∃ b, f (bound ctx r) = Ok b) →
  (∀ r, r ∈ rows dd → ∃ b, f' (bound ctx r) = Ok b) →
  ∃ s1 D1 s2 D2 s3 D3 dd',
    filter_detections (VDetections D) f g s = (s1, Ok (VDetections D1)) ∧
    filter_detections (VDetections D1) f' g s1 = (s2, Ok (VDetections D2)) ∧
    filter_detections (VDetections D) (both f f') g s
    = (s3, Ok (VDetections D3)) ∧
    contents (heap s2) D2 = Some dd' ∧ contents (heap s3) D3 = Some dd'.
Proof.
  intros Hc Hwf Eg Hf Hf'. apply contents_holds in Hc.
  destruct (filter_detections_then s D dd f f' g ctx Hc Hwf Eg Hf Hf')
    as (s1 & D1 & s2 & D2 & R1 & R2 & H1 & H2).
  destruct (filter_detections_ok s D dd (both f f') g ctx Hc Hwf Eg)
    as (s3 & D3 & R3 & P3 & H3 & F3).
  { intros r Hr. apply both_evaluates; auto. }
  eexists s1, D1, s2, D2, s3, D3, _. split; [done|]. split; [done|].
  split; [done|]. split; [by apply contents_holds|].
  apply contents_holds. rewrite zip_with_andb_fmap.
  erewrite list_fmap_ext; [exact H3|]. intros i r _. simpl.
  by rewrite is_true_both.
Qed.

(** Filtering the result of a filter by the same statement changes
    nothing: the second result has the contents of the first. *)
Theorem filter_detections_idempotent s D dd
    (f : gmap string pyval → result bool) g ctx :
  contents (heap s) D = Some dd → wf_data dd →
  heap s !! g = Some (CDict ctx) →
  (∀ r, r ∈ rows dd → ∃ b, f (bound ctx r) = Ok b) →
  ∃ s1 D1 s2 D2 dd',
    filter_detections (VDetections D) f g s = (s1, Ok (VDetections D1)) ∧
    filter_detections (VDetections D1) f g s1 = (s2, Ok (VDetections D2)) ∧
    contents (heap s1) D1 = Some dd' ∧ contents (heap s2) D2 = Some dd'.
Proof.
  intros Hc Hwf Eg Hf. apply contents_holds in Hc.
  destruct (filter_detections_then s D dd f f g ctx Hc Hwf Eg Hf Hf)
    as (s1 & D1 & s2 & D2 & R1 & R2 & H1 & H2).
  rewrite zip_with_andb_diag in H2.
  eexists s1, D1, s2, D2, _. split; [done|]. split; [done|].
  split; by apply contents_holds.
Qed.

(** Whatever the statement keeps, the result has the columns of the
    source: the same optional columns are present and [data] has the same
    keys, so a collection that carries confidence, class id and class name
    still carries them after filtering, also when no detection is left. *)
Theorem filter_detections_keeps_schema s D dd
    (f : gmap string pyval → result bool) g ctx s' D' :
  contents (heap s) D = Some dd → wf_data dd →
  heap s !! g = Some (CDict ctx) →
  filter_detections (VDetections D) f g s = (s', Ok (VDetections D')) →
  ∃ dd', contents (heap s') D' = Some dd' ∧ schema dd' = schema dd ∧
         (complete dd → complete dd').
Proof.
  intros Hc Hwf Eg R. apply contents_holds in Hc.
  destruct (filter_detections_run s D dd f g ctx Hc Hwf Eg) as (s1 & P & C & R1).
  destruct (comprehension _ (rows dd)) as [m|e]; [|congruence].
  destruct R1 as (D1 & R1 & H1 & F1). rewrite R in R1. injection R1 as <- <-.
  exists (select_data dd m). split; [by apply contents_holds|].
  split; [apply schema_select|]. apply complete_schema, schema_select.
Qed.

(** A statement that is true of every detection gives a collection with
    the contents of the source, held in arrays of its own. *)
Theorem filter_detections_all_true s D dd
    (f : gmap string pyval → result bool) g ctx :
  contents (heap s) D = Some dd → wf_data dd →
  heap s !! g = Some (CDict ctx) →
  (∀ r, r ∈ rows dd → f (bound ctx r) = Ok true) →
  ∃ s' D',
    filter_detections (VDetections D) f g s = (s', Ok (VDetections D')) ∧
    contents (heap s') D' = Some dd ∧ fresh_in (heap s) D'.
Proof.
  intros Hc Hwf Eg Hf. apply contents_holds in Hc.
  destruct (filter_detections_ok s D dd f g ctx Hc Hwf Eg)
    as (s' & D' & R & P & H' & F); [by eauto|].
  exists s', D'. split; [done|]. split; [|done]. apply contents_holds.
  rewrite select_data_all in H'; [done|done| |].
  - by rewrite length_fmap, rows_length.
  - apply Forall_fmap, Forall_forall. intros r Hr. simpl. by rewrite Hf.
Qed.

(** A statement that is false of every detection gives a collection
    without detections. *)
Theorem filter_detections_all_false s D dd
    (f : gmap string pyval → result bool) g ctx :
  contents (heap s) D = Some dd → wf_data dd →
  heap s !! g = Some (CDict ctx) →
  (∀ r, r ∈ rows dd → f (bound ctx r) = Ok false) →
  ∃ s' D' dd',
    filter_detections (VDetections D) f g s = (s', Ok (VDetections D')) ∧
    contents (heap s') D' = Some dd' ∧ d_xyxy dd' = [] ∧ rows dd' = [].
Proof.
  intros Hc Hwf Eg Hf. apply contents_holds in Hc.
  destruct (filter_detections_ok s D dd f g ctx Hc Hwf Eg)
    as (s' & D' & R & P & H' & F); [by eauto|].
  eexists s', D', _. split; [done|]. split; [by apply contents_holds|].
  assert (E : Forall (λ b, b = false)
                ((λ r, is_true (f (bound ctx r))) <$> rows dd)).
  { apply Forall_fmap, Forall_forall. intros r Hr. simpl. by rewrite Hf. }
  split; [by apply mask_select_none|].
  rewrite rows_select. by apply mask_select_none.
Qed.

End filter_more.

(** ** Extraction, on its own and after the other operations *)

Lemma holds_data_lookup_none h dt dc k :
  holds_data h dt dc → dict_lookup k dc = None → dict_lookup k dt = None.
Proof.
  induction 1 as [|[k1 l] [k2 c'] dt dc [E1 E2] _ IH]; [done|].
  simpl in *. subst k2. rewrite !dict_lookup_cons.
  by destruct (bool_decide (k1 = k)).
Qed.

Lemma read_col_state s l : (read_col l s).1 = s.
Proof. unfold read_col. by destruct (heap s !! l) as [[]|]. Qed.

Lemma read_boxes_state s l : (read_boxes l s).1 = s.
Proof. unfold read_boxes. by destruct (heap s !! l) as [[]|]. Qed.

Lemma tolist_state s o : (tolist o s).1 = s.
Proof.
  destruct o as [l|]; [|done]. unfold tolist, bind.
  pose proof (read_col_state s l) as E.
  destruct (read_col l s) as [s' [c|e]]; simpl in *; by subst.
Qed.

Lemma xyxy_column_state s f D : (xyxy_column f D s).1 = s.
Proof.
  unfold xyxy_column, bind. pose proof (read_boxes_state s (xyxy D)) as E.
  destruct (read_boxes (xyxy D) s) as [s' [c|e]]; simpl in *; by subst.
Qed.

Lemma property_column_with_xyxy p dd (f : box → box) :
  reads_no_coordinate p = true →
  property_column p (with_xyxy dd (f <$> d_xyxy dd)) = property_column p dd.
Proof. intros Hp. by destruct p. Qed.

Section extraction_more.
Context `{Imports}.

Lemma extract_column s D dd p execution_context :
  holds (heap s) D dd →
  extract_detections_property (VDetections D) p execution_context s
  = (s, match property_column p dd with
        | Some c => Ok (VList c)
        | None => Raise (missing_column_error p)
        end).
Proof.
  intros (Hx & Hm & Hc & Hi & Ht & Hd).
  assert (Hxy : ∀ f, xyxy_column f D s
            = (s, Ok (VList ((λ b, AFloat (f b)) <$> d_xyxy dd)))).
  { intros f. unfold xyxy_column. by run (read_boxes_run _ _ _ Hx). }
  destruct p; simpl; try apply Hxy; try done.
  - destruct (confidence D) as [l|], (d_confidence dd) as [c|];
      simpl in *; try done.
    by run (read_col_run _ _ _ Hc).
  - destruct (dict_lookup "class_name" (d_data dd)) as [c|] eqn:Ec.
    + destruct (holds_data_lookup _ _ _ _ _ Hd Ec) as (l & -> & El).
      simpl. by run (read_col_run _ _ _ El).
    + by rewrite (holds_data_lookup_none _ _ _ _ Hd Ec).
  - destruct (class_id D) as [l|], (d_class_id dd) as [c|];
      simpl in *; try done.
    by run (read_col_run _ _ _ Hi).
Qed.

(** On a collection, extraction depends on the column the property reads
    and on nothing else: it returns that column as a list when the
    collection has it, and otherwise raises the error of the failed access,
    an [AttributeError] for an absent confidence or class id and a
    [KeyError] for an absent class name or an unregistered property, never
    an [InvalidInputTypeError]. The coordinates and the area are always
    there. *)
Theorem extract_detections_property_outcome s D dd p execution_context :
  contents (heap s) D = Some dd →
  extract_detections_property (VDetections D) p execution_context s
  = (s, match property_column p dd with
        | Some c => Ok (VList c)
        | None => Raise (missing_column_error p)
        end) ∧
  (∀ message context,
     missing_column_error p ≠ InvalidInputTypeError message context) ∧
  match p with
  | X_MIN | Y_MIN | X_MAX | Y_MAX | SIZE =>
      ∃ c, property_column p dd = Some c ∧ length c = length (d_xyxy dd)
  | _ => True
  end.
Proof.
  intros Hc. apply contents_holds in Hc.
  split; [by apply extract_column|]. split; [by destruct p|].
  destruct p; try done; eexists; (split; [done|]); by rewrite length_fmap.
Qed.

(** Extraction reads: whatever it is given and whether it returns or
    raises, the heap and the log of calls are as they were. *)
Theorem extract_detections_property_read_only (v : pyval) p
    execution_context s :
  (extract_detections_property v p execution_context s).1 = s.
Proof.
  destruct v as [a| | | | |D]; try done. simpl.
  destruct p; simpl; try done;
    try apply tolist_state; try apply xyxy_column_state.
  destruct (dict_lookup "class_name" (data D)) as [l|]; [|done].
  apply (tolist_state s (Some l)).
Qed.

(** Extraction commutes with filtering: a property of the filtered
    collection is the list of the values the property has on the source,
    restricted to the detections the statement keeps, in their order. *)
Theorem extract_after_filter s D dd (f : gmap string pyval → result bool)
    g ctx p c execution_context :
  contents (heap s) D = Some dd → wf_data dd →
  heap s !! g = Some (CDict ctx) →
  (∀ r, r ∈ rows dd → ∃ b, f (bound ctx r) = Ok b) →
  property_column p dd = Some c →
  ∃ s' D',
    extract_detections_property (VDetections D) p execution_context s
    = (s, Ok (VList c)) ∧
    filter_detections (VDetections D) f g s = (s', Ok (VDetections D')) ∧
    extract_detections_property (VDetections D') p execution_context s'
    = (s', Ok (VList
         (mask_select c ((λ r, is_true (f (bound ctx r))) <$> rows dd)))).
Proof.
  intros Hc Hwf Eg Hf Ep. apply contents_holds in Hc.
  destruct (filter_detections_ok s D dd f g ctx Hc Hwf Eg Hf)
    as (s' & D' & R & P & H' & F).
  exists s', D'. split; [|split; [done|]].
  - by rewrite (extract_column s D dd), Ep.
  - by rewrite (extract_column s' D' _ p _ H'), property_column_select, Ep.
Qed.

(** A shift changes none of confidence, class name and class id, the
    properties that are not read off the coordinates: extracting one of
    them from the shifted collection gives the list it gives on the
    source. *)
Theorem extract_after_shift s D dd dx dy p c execution_context :
  contents (heap s) D = Some dd →
  reads_no_coordinate p = true →
  property_column p dd = Some c →
  ∃ s' D',
    extract_detections_property (VDetections D) p execution_context s
    = (s, Ok (VList c)) ∧
    shift_detections (VDetections D) dx dy s = (s', Ok (VDetections D')) ∧
    extract_detections_property (VDetections D') p execution_context s'
    = (s', Ok (VList c)).
Proof.
  intros Hc Hp Ep. apply contents_holds in Hc.
  destruct (shift_detections_run s D dd dx dy Hc) as (s' & D' & R & P & C & H' & F).
  exists s', D'. split; [|split; [done|]].
  - by rewrite (extract_column s D dd), Ep.
  - rewrite (extract_column s' D' _ p _ H').
    by rewrite property_column_with_xyxy, Ep.
Qed.

End extraction_more.

(** ** The transforms at zero *)

Lemma offset_box_zero b : offset_box 0 0 b = b.
Proof. destruct b. unfold offset_box, Qcminus, Qcdiv. simpl. f_equal; ring. Qed.

Lemma shift_box_zero b : shift_box 0 0 b = b.
Proof. destruct b. unfold shift_box. simpl. f_equal; ring. Qed.

Section transform_more.
Context `{Imports}.

Lemma offset_transform offset_x offset_y s D dd :
  holds (heap s) D dd →
  ∃ s' D',
    offset_detections (VDetections D) offset_x offset_y s
    = (s', Ok (VDetections D')) ∧
    preserved (heap s) (heap s') ∧
    holds (heap s') D' (with_xyxy dd (offset_box offset_x offset_y <$> d_xyxy dd)) ∧
    fresh_in (heap s) D'.
Proof.
  intros Hh.
  destruct (offset_detections_run s D dd offset_x offset_y Hh)
    as (s' & D' & R & P & C & H' & F). eauto 10.
Qed.

Lemma shift_transform shift_x shift_y s D dd :
  holds (heap s) D dd →
  ∃ s' D',
    shift_detections (VDetections D) shift_x shift_y s
    = (s', Ok (VDetections D')) ∧
    preserved (heap s) (heap s') ∧
    holds (heap s') D' (with_xyxy dd (shift_box shift_x shift_y <$> d_xyxy dd)) ∧
    fresh_in (heap s) D'.
Proof.
  intros Hh.
  destruct (shift_detections_run s D dd shift_x shift_y Hh)
    as (s' & D' & R & P & C & H' & F). eauto 10.
Qed.

(** With offsets (0, 0), and with shifts (0, 0), the result has the
    contents of the argument and is held in arrays that did not exist
    before: an identity on the geometry, but still a copy. *)
Theorem zero_transform_is_a_copy s D dd :
  contents (heap s) D = Some dd →
  ∃ s1 D1 s2 D2,
    offset_detections (VDetections D) 0 0 s = (s1, Ok (VDetections D1)) ∧
    contents (heap s1) D1 = Some dd ∧ fresh_in (heap s) D1 ∧
    shift_detections (VDetections D) 0 0 s = (s2, Ok (VDetections D2)) ∧
    contents (heap s2) D2 = Some dd ∧ fresh_in (heap s) D2.
Proof.
  intros Hc. apply contents_holds in Hc.
  destruct (offset_transform 0 0 s D dd Hc) as (s1 & D1 & R1 & P1 & H1 & F1).
  destruct (shift_transform 0 0 s D dd Hc) as (s2 & D2 & R2 & P2 & H2 & F2).
  exists s1, D1, s2, D2. split; [done|].
  split; [|split; [done|split; [done|split; [|done]]]]; apply contents_holds.
  - erewrite list_fmap_ext, list_fmap_id, with_xyxy_id in H1; [done|].
    intros i b _. apply offset_box_zero.
  - erewrite list_fmap_ext, list_fmap_id, with_xyxy_id in H2; [done|].
    intros i b _. apply shift_box_zero.
Qed.

End transform_more.

(** * Further properties of [models/foundation/segment_anything/v1.py] *)

(** ** Comprehensions, pointwise *)

Lemma comprehension_Forall2 {A B} (f : A → result B) l m :
  comprehension f l = Ok m ↔ Forall2 (λ x y, f x = Ok y) l m.
Proof.
  revert m. induction l as [|x l IH]; intros m.
  - split; [by intros [= <-]; constructor|by inversion 1].
  - rewrite comprehension_cons. split.
    + destruct (f x) as [y|] eqn:Ex; [|done]. simpl.
      destruct (comprehension f l) as [ys|] eqn:E; [|done]. simpl.
      intros [= <-]. constructor; [done|]. by apply IH.
    + inversion 1 as [|? y ? ys Ex Hys]; subst. rewrite Ex. simpl.
      apply IH in Hys. by rewrite Hys.
Qed.

(** ** One polygon *)

Lemma index_ok {A} (l : list A) i x : index l i = Ok x ↔ l !! i = Some x.
Proof. unfold index. destruct (l !! i); naive_solver. Qed.

Lemma polygon_prediction_inv p ids names k pred :
  polygon_prediction p ids names k = Ok pred →
  ∃ xs ys min_x min_y max_x max_y,
    Forall2 (λ coord x, coord !! 0%nat = Some x) p xs ∧
    Forall2 (λ coord y, coord !! 1%nat = Some y) p ys ∧
    np_min xs = Ok min_x ∧ np_min ys = Ok min_y ∧
    np_max xs = Ok max_x ∧ np_max ys = Ok max_y ∧
    Forall2 reads p (pred_points pred) ∧
    names !! k = Some (pred_class pred) ∧
    ids !! k = Some (pred_class_id pred) ∧
    pred_x pred = (min_x + max_x) / 2 ∧ pred_y pred = (min_y + max_y) / 2 ∧
    pred_width pred = max_x - min_x ∧ pred_height pred = max_y - min_y ∧
    pred_confidence pred = Q2Qc (1 # 2).
Proof.
  unfold polygon_prediction, mbind, result_mbind.
  destruct (comprehension _ p) as [xs|] eqn:Exs; [|done]. simpl.
  destruct (comprehension _ p) as [ys|] eqn:Eys in |- *; [|done]. simpl.
  destruct (np_min xs) as [min_x|] eqn:E1; [|done]. simpl.
  destruct (np_min ys) as [min_y|] eqn:E2; [|done]. simpl.
  destruct (np_max xs) as [max_x|] eqn:E3; [|done]. simpl.
  destruct (np_max ys) as [max_y|] eqn:E4; [|done]. simpl.
  destruct (comprehension _ p) as [pts|] eqn:Epts in |- *; [|done]. simpl.
  destruct (index names k) as [cls|] eqn:E5; [|done]. simpl.
  destruct (index ids k) as [cid|] eqn:E6; [|done]. simpl.
  intros [= <-]. simpl.
  exists xs, ys, min_x, min_y, max_x, max_y.
  apply comprehension_Forall2 in Exs, Eys, Epts.
  apply index_ok in E5, E6.
  split.
  { eapply Forall2_impl; [exact Exs|]. intros c x. apply index_ok. }
  split.
  { eapply Forall2_impl; [exact Eys|]. intros c y. apply index_ok. }
  repeat (split; [done|]). split; [|done].
  eapply Forall2_impl; [exact Epts|]. intros c pt. simpl.
  unfold result_bind.
  destruct (index c 0) as [x|] eqn:Ex; [|done].
  destruct (index c 1) as [y|] eqn:Ey; [|done].
  intros [= <-]. split; by apply index_ok.
Qed.

Lemma polygon_prediction_total p ids names k :
  well_formed_polygon p → is_Some (names !! k) → is_Some (ids !! k) →
  ∃ pred, polygon_prediction p ids names k = Ok pred.
Proof.
  intros [Hne Hp] [cls Ecls] [cid Ecid].
  assert (Hc : ∀ coord, coord ∈ p →
            ∃ x y, coord !! 0%nat = Some x ∧ coord !! 1%nat = Some y).
  { intros coord Hin. rewrite Forall_forall in Hp. specialize (Hp coord Hin).
    destruct coord as [|x [|y coord]]; simpl in *; try lia. by exists x, y. }
  destruct (comprehension_total (λ coord, index coord 0) p) as [xs Exs].
  { intros c Hin. destruct (Hc c Hin) as (x & y & Ex & Ey).
    exists x. by apply index_ok. }
  destruct (comprehension_total (λ coord, index coord 1) p) as [ys Eys].
  { intros c Hin. destruct (Hc c Hin) as (x & y & Ex & Ey).
    exists y. by apply index_ok. }
  destruct (comprehension_total
    (λ point, x ← index point 0; y ← index point 1; Ok (MkPoint x y)) p)
    as [pts Epts].
  { intros c Hin. destruct (Hc c Hin) as (x & y & Ex & Ey).
    exists (MkPoint x y). apply index_ok in Ex, Ey.
    unfold mbind, result_mbind. by rewrite Ex, Ey. }
  apply comprehension_length in Exs as Lx. apply comprehension_length in Eys as Ly.
  destruct xs as [|x xs]; [by destruct p|].
  destruct ys as [|y ys]; [by destruct p|].
  eexists. unfold polygon_prediction, mbind, result_mbind.
  unfold mbind, result_mbind in Epts.
  rewrite Exs. simpl. rewrite Eys. simpl. rewrite Epts. simpl.
  apply index_ok in Ecls, Ecid. rewrite Ecls, Ecid. done.
Qed.

(** ** The whole response *)

Lemma indexed_polygons_elem preds : ∀ k0 k p,
  (k, p) ∈ indexed_polygons preds k0
  ↔ ∃ i mask, k = (k0 + i)%nat ∧ preds !! i = Some mask ∧ p ∈ mask.
Proof.
  induction preds as [|mask preds IH]; intros k0 k p; simpl.
  - split; [by intros ?%elem_of_nil|]. by intros (i & m & _ & ? & _).
  - rewrite elem_of_app, IH, list_elem_of_fmap. split.
    + intros [(q & [= -> ->] & Hq)|(i & m & -> & Ei & Hp)].
      * exists 0%nat, mask. split; [lia|done].
      * exists (S i), m. split; [lia|done].
    + intros ([|i] & m & -> & Ei & Hp); simpl in Ei.
      * injection Ei as <-. left. exists p. split; [f_equal; lia|done].
      * right. exists i, m. split; [lia|done].
Qed.

Lemma convert_predictions_Forall2 preds ids names : ∀ k0 out,
  convert_predictions preds ids names k0 = Ok out
  ↔ Forall2 (λ kp pred, polygon_prediction kp.2 ids names kp.1 = Ok pred)
      (indexed_polygons preds k0) out.
Proof.
  induction preds as [|mask preds IH]; intros k0 out; cbn [convert_predictions
    indexed_polygons].
  - split; [by intros [= <-]; constructor|by inversion 1].
  - unfold mbind, result_mbind. split.
    + destruct (comprehension _ mask) as [here|] eqn:E1; [|done]. simpl.
      destruct (convert_predictions preds ids names (S k0)) as [later|] eqn:E2;
        [|done]. simpl.
      intros [= <-]. apply Forall2_app.
      * apply Forall2_fmap_l. by apply comprehension_Forall2 in E1.
      * by apply IH.
    + intros (here & later & H1 & H2 & ->)%Forall2_app_inv_l.
      apply Forall2_fmap_l in H1.
      apply (comprehension_Forall2
        (λ polygon, polygon_prediction polygon ids names k0)) in H1.
      apply IH in H2. rewrite H1. simpl. by rewrite H2.
Qed.

Lemma convert_predictions_total preds ids names : ∀ k0,
  (∀ k p, (k, p) ∈ indexed_polygons preds k0 →
     ∃ pred, polygon_prediction p ids names k = Ok pred) →
  ∃ out, convert_predictions preds ids names k0 = Ok out.
Proof.
  induction preds as [|mask preds IH]; intros k0 Hall;
    cbn [convert_predictions indexed_polygons] in *.
  - by eexists.
  - destruct (comprehension_total
      (λ polygon, polygon_prediction polygon ids names k0) mask) as [here E1].
    { intros p Hp. apply Hall, elem_of_app. left.
      apply list_elem_of_fmap. by exists p. }
    destruct (IH (S k0)) as [later E2].
    { intros k p Hp. apply Hall, elem_of_app. by right. }
    exists (here ++ later). unfold mbind, result_mbind.
    rewrite E1. simpl. by rewrite E2.
Qed.

(** The class lists the conversion works with. *)
Lemma conversion_unfold preds image ids names :
  _convert_sam2_segmentation_response_to_inference_instances_seg_response
    preds image ids names
  = (predictions ← convert_predictions preds
       (match ids with
        | [] => Z.of_nat <$> seq 0 (length preds) | _ => ids end)
       (match ids with
        | [] => pretty <$> seq 0 (length preds) | _ => names end) 0;
     Ok (MkResponse predictions image.1 image.2)).
Proof.
  unfold _convert_sam2_segmentation_response_to_inference_instances_seg_response.
  destruct ids; by simpl.
Qed.

Lemma conversion_inv preds image ids names resp :
  _convert_sam2_segmentation_response_to_inference_instances_seg_response
    preds image ids names = Ok resp →
  image_width resp = image.1 ∧ image_height resp = image.2 ∧
  Forall2 (λ kp pred,
      polygon_prediction kp.2
        (match ids with
         | [] => Z.of_nat <$> seq 0 (length preds) | _ => ids end)
        (match ids with
         | [] => pretty <$> seq 0 (length preds) | _ => names end) kp.1
      = Ok pred)
    (indexed_polygons preds 0) (predictions resp).
Proof.
  rewrite conversion_unfold. unfold mbind, result_mbind.
  destruct (convert_predictions _ _ _ _) as [out|] eqn:E; [|done]. simpl.
  intros [= <-]. simpl. split; [done|]. split; [done|].
  by apply convert_predictions_Forall2.
Qed.

Lemma Forall2_elem_l {A B} (P : A → B → Prop) l k x :
  Forall2 P l k → x ∈ l → ∃ y, y ∈ k ∧ P x y.
Proof.
  induction 1 as [|a b l k Hab _ IH]; intros Hx.
  - by apply elem_of_nil in Hx.
  - apply elem_of_cons in Hx as [->|Hx].
    + exists b. split; [left|done].
    + destruct (IH Hx) as (y & Hy & Hp). exists y. split; [by right|done].
Qed.

Lemma indexed_polygons_bound preds k p :
  (k, p) ∈ indexed_polygons preds 0 → (k < length preds)%nat.
Proof.
  intros (i & mask & -> & Ei & _)%indexed_polygons_elem.
  by apply lookup_lt_Some in Ei.
Qed.

(** A response whose polygons all have a point, and whose points all have
    two coordinates, is converted when there are no prompt classes or at
    least as many as predictions: the result carries the size of the image
    and one prediction per polygon, in the order of the response, each
    with the points of its polygon (the first two coordinates of each) and
    confidence one half. *)
Theorem conversion_of_well_formed_response sam2_segmentation_predictions image
    prompt_class_ids prompt_class_names :
  Forall (Forall well_formed_polygon) sam2_segmentation_predictions →
  prompt_class_ids = [] ∨
    ((length sam2_segmentation_predictions ≤ length prompt_class_ids)%nat ∧
     (length sam2_segmentation_predictions ≤ length prompt_class_names)%nat) →
  ∃ response,
    _convert_sam2_segmentation_response_to_inference_instances_seg_response
      sam2_segmentation_predictions image prompt_class_ids prompt_class_names
    = Ok response ∧
    image_width response = image.1 ∧ image_height response = image.2 ∧
    Forall2 (λ kp pred,
        Forall2 reads kp.2 (pred_points pred) ∧
        pred_confidence pred = Q2Qc (1 # 2))
      (indexed_polygons sam2_segmentation_predictions 0) (predictions response).
Proof.
  intros Hwf Hcls.
  set (ids := match prompt_class_ids with
              | [] => Z.of_nat <$> seq 0 (length sam2_segmentation_predictions)
              | _ => prompt_class_ids end).
  set (names := match prompt_class_ids with
                | [] => pretty <$> seq 0 (length sam2_segmentation_predictions)
                | _ => prompt_class_names end).
  assert (Hlen : (length sam2_segmentation_predictions ≤ length ids)%nat ∧
                 (length sam2_segmentation_predictions ≤ length names)%nat).
  { unfold ids, names. destruct prompt_class_ids.
    - by rewrite !length_fmap, length_seq.
    - by destruct Hcls. }
  destruct (convert_predictions_total sam2_segmentation_predictions ids names 0)
    as [out E].
  { intros k p Hkp. apply indexed_polygons_bound in Hkp as Hk.
    apply indexed_polygons_elem in Hkp as (i & mask & _ & Ei & Hp).
    apply polygon_prediction_total.
    - rewrite Forall_forall in Hwf.
      specialize (Hwf mask (list_elem_of_lookup_2 _ _ _ Ei)).
      rewrite Forall_forall in Hwf. by apply Hwf.
    - apply lookup_lt_is_Some_2. lia.
    - apply lookup_lt_is_Some_2. lia. }
  exists (MkResponse out image.1 image.2).
  rewrite conversion_unfold. fold ids names. unfold mbind, result_mbind.
  rewrite E. simpl. split; [done|]. split; [done|]. split; [done|].
  apply convert_predictions_Forall2 in E.
  eapply Forall2_impl; [exact E|]. intros [k p] pred Ep. simpl in *.
  apply polygon_prediction_inv in Ep
    as (? & ? & ? & ? & ? & ? & _ & _ & _ & _ & _ & _ & Hr & _ & _ & _ & _ & _ & _ & Hc).
  done.
Qed.

(** The class of a prediction comes from the index of the SAM2 prediction
    its polygon belongs to, not from the position of the polygon: with
    prompt classes it is the class name and id at that index; without
    prompt class ids (whatever the names) it is the index itself, as the
    id and, in decimal, as the name. *)
Theorem conversion_classes sam2_segmentation_predictions image
    prompt_class_ids prompt_class_names response :
  _convert_sam2_segmentation_response_to_inference_instances_seg_response
    sam2_segmentation_predictions image prompt_class_ids prompt_class_names
  = Ok response →
  Forall2 (λ kp pred,
      match prompt_class_ids with
      | [] => pred_class pred = pretty kp.1 ∧
              pred_class_id pred = Z.of_nat kp.1
      | _ => prompt_class_names !! kp.1 = Some (pred_class pred) ∧
             prompt_class_ids !! kp.1 = Some (pred_class_id pred)
      end)
    (indexed_polygons sam2_segmentation_predictions 0) (predictions response).
Proof.
  intros (_ & _ & Hall)%conversion_inv.
  eapply Forall2_impl; [exact Hall|]. intros [k p] pred Ep. simpl in *.
  apply polygon_prediction_inv in Ep
    as (? & ? & ? & ? & ? & ? & _ & _ & _ & _ & _ & _ & _ & En & Ei & _).
  destruct prompt_class_ids; [|done].
  rewrite list_lookup_fmap in En. rewrite list_lookup_fmap in Ei.
  destruct (seq 0 (length sam2_segmentation_predictions) !! k) as [j|] eqn:Ej;
    [|done].
  apply lookup_seq in Ej as [-> _]. simpl in *. split; congruence.
Qed.

(** With prompt classes, a response that has a polygon in a prediction
    beyond the end of the class names or of the class ids is not
    converted: the conversion raises, it neither pads nor drops. *)
Theorem conversion_too_few_classes sam2_segmentation_predictions image
    prompt_class_ids prompt_class_names k mask :
  prompt_class_ids ≠ [] →
  sam2_segmentation_predictions !! k = Some mask → mask ≠ [] →
  (length prompt_class_names ≤ k)%nat ∨ (length prompt_class_ids ≤ k)%nat →
  ∃ e,
    _convert_sam2_segmentation_response_to_inference_instances_seg_response
      sam2_segmentation_predictions image prompt_class_ids prompt_class_names
    = Raise e.
Proof.
  intros Hids Ek Hmask Hshort.
  destruct (_convert_sam2_segmentation_response_to_inference_instances_seg_response
              _ _ _ _) as [resp|e] eqn:E; [|by exists e].
  exfalso. apply conversion_inv in E as (_ & _ & Hall).
  destruct mask as [|p mask]; [done|].
  destruct (Forall2_elem_l _ _ _ (k, p) Hall) as (pred & _ & Ep).
  { apply indexed_polygons_elem. exists k, (p :: mask).
    split; [done|]. split; [done|left]. }
  simpl in Ep. apply polygon_prediction_inv in Ep
    as (? & ? & ? & ? & ? & ? & _ & _ & _ & _ & _ & _ & _ & En & Ei & _).
  destruct prompt_class_ids; [done|].
  destruct Hshort as [Hs|Hs]; apply lookup_ge_None_2 in Hs; congruence.
Qed.

(** A point with fewer than two coordinates anywhere in the response
    makes the conversion raise. *)
Theorem conversion_short_point sam2_segmentation_predictions image
    prompt_class_ids prompt_class_names mask (p : polygon) coord :
  mask ∈ sam2_segmentation_predictions → p ∈ mask → coord ∈ p →
  (length coord < 2)%nat →
  ∃ e,
    _convert_sam2_segmentation_response_to_inference_instances_seg_response
      sam2_segmentation_predictions image prompt_class_ids prompt_class_names
    = Raise e.
Proof.
  intros Hm Hp Hc Hshort.
  destruct (_convert_sam2_segmentation_response_to_inference_instances_seg_response
              _ _ _ _) as [resp|e] eqn:E; [|by exists e].
  exfalso. apply conversion_inv in E as (_ & _ & Hall).
  apply list_elem_of_lookup_1 in Hm as [i Ei].
  destruct (Forall2_elem_l _ _ _ (i, p) Hall) as (pred & _ & Ep).
  { apply indexed_polygons_elem. by exists i, mask. }
  simpl in Ep. apply polygon_prediction_inv in Ep
    as (? & ? & ? & ? & ? & ? & _ & _ & _ & _ & _ & _ & Hr & _).
  destruct (Forall2_elem_l _ _ _ coord Hr Hc) as (pt & _ & _ & E1).
  apply lookup_lt_Some in E1. lia.
Qed.

(** ** The prompts of an image *)

Lemma dict_lookup_Forall {A} (P : string * A → Prop) k d c :
  Forall P d → dict_lookup k d = Some c → ∃ k', P (k', c).
Proof.
  induction 1 as [|[k' x] d Hx _ IH]; [done|].
  rewrite dict_lookup_cons. destruct (bool_decide (k' = k)); [|done].
  intros [= <-]. by exists k'.
Qed.

Lemma prompt_loop_run dd ids names : ∀ bx k,
  d_class_id dd = Some ids →
  dict_lookup "class_name" (d_data dd) = Some names →
  length ids = (k + length bx)%nat → length names = (k + length bx)%nat →
  prompt_loop dd bx k = Returns (drop k ids, drop k names, box_prompt <$> bx).
Proof.
  intros bx k Ei En. revert k.
  induction bx as [|b bx IH]; intros k Li Ln; cbn [prompt_loop length] in *.
  - by rewrite !drop_ge by lia.
  - destruct (lookup_lt_is_Some_2 ids k) as [ci Eci]; [lia|].
    destruct (lookup_lt_is_Some_2 names k) as [cn Ecn]; [lia|].
    unfold mbind, outcome_mbind, subscript, data_item.
    rewrite Ei, Eci, En, Ecn, IH by lia. simpl.
    by rewrite (drop_S _ _ _ Eci), (drop_S _ _ _ Ecn).
Qed.

(** What the loop over the boxes of an image leaves behind, for a
    collection as [sv.Detections] validates it. With class ids and class
    names it returns both columns and one prompt per box, in the order of
    the boxes. With a box but without class ids it raises the [TypeError]
    of subscripting [None]; with class ids but without a [class_name]
    column, a [KeyError]. Without boxes it reads neither and raises
    nothing. *)
Theorem image_prompts_outcome detections :
  wf_data detections →
  image_prompts (Some detections)
  = match d_xyxy detections with
    | [] => Returns ([], [], [])
    | _ :: _ =>
        match d_class_id detections with
        | None => Raises (TypeError "'NoneType' object is not subscriptable")
        | Some class_ids =>
            match dict_lookup "class_name" (d_data detections) with
            | None => Raises (Exn (KeyError "class_name"))
            | Some class_names =>
                Returns (class_ids, class_names,
                         box_prompt <$> d_xyxy detections)
            end
        end
    end.
Proof.
  intros (_ & _ & Ai & _ & Ad). unfold image_prompts.
  destruct (d_xyxy detections) as [|b bx] eqn:Ex; [done|].
  destruct (d_class_id detections) as [ids|] eqn:Ei.
  - destruct (dict_lookup "class_name" (d_data detections)) as [names|] eqn:En.
    + destruct (dict_lookup_Forall _ _ _ _ Ad En) as [k' Ln].
      simpl in Ai, Ln.
      by rewrite (prompt_loop_run detections ids names).
    + cbn [prompt_loop]. unfold mbind, outcome_mbind, subscript, data_item.
      rewrite Ei, En. simpl in Ai. by destruct ids.
  - cbn [prompt_loop]. unfold mbind, outcome_mbind, subscript.
    by rewrite Ei.
Qed.

(** * The further properties on the sample data *)

Lemma sample_contents :
  contents (heap sample_state) sample_detections = Some sample_data.
Proof. vm_compute. reflexivity. Defined.

Lemma filter_detections_conjunction_witness :
  ∃ s1 D1 s2 D2 s3 D3 dd',
    @filter_detections sample_imports (VDetections sample_detections)
      (@evaluate sample_imports sample_heap sample_statement) 5%positive
      sample_state = (s1, Ok (VDetections D1)) ∧
    @filter_detections sample_imports (VDetections D1) (always true) 5%positive
      s1 = (s2, Ok (VDetections D2)) ∧
    @filter_detections sample_imports (VDetections sample_detections)
      (both (@evaluate sample_imports sample_heap sample_statement)
            (always true)) 5%positive sample_state
    = (s3, Ok (VDetections D3)) ∧
    contents (heap s2) D2 = Some dd' ∧ contents (heap s3) D3 = Some dd'.
Proof.
  apply (@filter_detections_conjunction sample_imports sample_state
           sample_detections sample_data
           (@evaluate sample_imports sample_heap sample_statement)
           (always true) 5%positive sample_context).
  - exact sample_contents.
  - exact sample_wf.
  - reflexivity.
  - exact sample_rows_evaluate.
  - intros r _. by exists true.
Defined.

Lemma filter_detections_idempotent_witness :
  ∃ s1 D1 s2 D2 dd',
    @filter_detections sample_imports (VDetections sample_detections)
      (@evaluate sample_imports sample_heap sample_statement) 5%positive
      sample_state = (s1, Ok (VDetections D1)) ∧
    @filter_detections sample_imports (VDetections D1)
      (@evaluate sample_imports sample_heap sample_statement) 5%positive
      s1 = (s2, Ok (VDetections D2)) ∧
    contents (heap s1) D1 = Some dd' ∧ contents (heap s2) D2 = Some dd'.
Proof.
  apply (@filter_detections_idempotent sample_imports sample_state
           sample_detections sample_data
           (@evaluate sample_imports sample_heap sample_statement)
           5%positive sample_context).
  - exact sample_contents.
  - exact sample_wf.
  - reflexivity.
  - exact sample_rows_evaluate.
Defined.

Lemma filter_detections_keeps_schema_witness :
  ∃ s' D' dd',
    @filter_detections sample_imports (VDetections sample_detections)
      (always false) 5%positive sample_state = (s', Ok (VDetections D')) ∧
    contents (heap s') D' = Some dd' ∧ schema dd' = schema sample_data ∧
    complete dd'.
Proof.
  assert (∃ s' D',
    @filter_detections sample_imports (VDetections sample_detections)
      (always false) 5%positive sample_state = (s', Ok (VDetections D')))
    as (s' & D' & R) by (eexists _, _; vm_compute; reflexivity).
  destruct (@filter_detections_keeps_schema sample_imports sample_state
              sample_detections sample_data (always false) 5%positive
              sample_context s' D') as (dd' & C & S & K).
  - exact sample_contents.
  - exact sample_wf.
  - reflexivity.
  - exact R.
  - exists s', D', dd'. split; [exact R|]. split; [exact C|].
    split; [exact S|]. exact (K sample_complete).
Defined.

Lemma filter_detections_all_true_witness :
  ∃ s' D',
    @filter_detections sample_imports (VDetections sample_detections)
      (always true) 5%positive sample_state = (s', Ok (VDetections D')) ∧
    contents (heap s') D' = Some sample_data ∧ fresh_in sample_heap D'.
Proof.
  apply (@filter_detections_all_true sample_imports sample_state
           sample_detections sample_data (always true) 5%positive
           sample_context).
  - exact sample_contents.
  - exact sample_wf.
  - reflexivity.
  - intros r _. reflexivity.
Defined.

Lemma filter_detections_all_false_witness :
  ∃ s' D' dd',
    @filter_detections sample_imports (VDetections sample_detections)
      (always false) 5%positive sample_state = (s', Ok (VDetections D')) ∧
    contents (heap s') D' = Some dd' ∧ d_xyxy dd' = [] ∧ rows dd' = [].
Proof.
  apply (@filter_detections_all_false sample_imports sample_state
           sample_detections sample_data (always false) 5%positive
           sample_context).
  - exact sample_contents.
  - exact sample_wf.
  - reflexivity.
  - intros r _. reflexivity.
Defined.

(** The single box has coordinates and an area but no confidence. *)
Lemma extract_detections_property_outcome_witness :
  @extract_detections_property sample_imports (VDetections single_box)
    CONFIDENCE "filter" sample_state
  = (sample_state,
     Raise (AttributeError "'NoneType' object has no attribute 'tolist'")).
Proof.
  destruct (@extract_detections_property_outcome sample_imports sample_state
              single_box single_box_data CONFIDENCE "filter") as (E & _).
  - vm_compute. reflexivity.
  - exact E.
Defined.

Lemma extract_after_filter_witness :
  ∃ s' D',
    @filter_detections sample_imports (VDetections sample_detections)
      (@evaluate sample_imports sample_heap sample_statement) 5%positive
      sample_state = (s', Ok (VDetections D')) ∧
    @extract_detections_property sample_imports (VDetections D') CLASS_NAME
      "filter" s' = (s', Ok (VList [AStr "person"])).
Proof.
  destruct (@extract_after_filter sample_imports sample_state
              sample_detections sample_data
              (@evaluate sample_imports sample_heap sample_statement)
              5%positive sample_context CLASS_NAME
              [AStr "person"; AStr "car"] "filter")
    as (s' & D' & _ & R & E).
  - exact sample_contents.
  - exact sample_wf.
  - reflexivity.
  - exact sample_rows_evaluate.
  - reflexivity.
  - exists s', D'. split; [exact R|]. exact E.
Defined.

Lemma extract_after_shift_witness :
  ∃ s' D' c,
    @extract_detections_property sample_imports (VDetections sample_detections)
      CLASS_NAME "filter" sample_state = (sample_state, Ok (VList c)) ∧
    @shift_detections sample_imports (VDetections sample_detections)
      (num 7) (num (-3)) sample_state = (s', Ok (VDetections D')) ∧
    @extract_detections_property sample_imports (VDetections D') CLASS_NAME
      "filter" s' = (s', Ok (VList c)).
Proof.
  destruct (@extract_after_shift sample_imports sample_state
              sample_detections sample_data (num 7) (num (-3)) CLASS_NAME
              [AStr "person"; AStr "car"] "filter")
    as (s' & D' & E0 & R & E).
  - exact sample_contents.
  - reflexivity.
  - reflexivity.
  - exists s', D', [AStr "person"; AStr "car"].
    split; [exact E0|]. split; [exact R|exact E].
Defined.

Lemma zero_transform_is_a_copy_witness :
  ∃ s1 D1 s2 D2,
    @offset_detections sample_imports (VDetections sample_detections) 0 0
      sample_state = (s1, Ok (VDetections D1)) ∧
    contents (heap s1) D1 = Some sample_data ∧ fresh_in sample_heap D1 ∧
    @shift_detections sample_imports (VDetections sample_detections) 0 0
      sample_state = (s2, Ok (VDetections D2)) ∧
    contents (heap s2) D2 = Some sample_data ∧ fresh_in sample_heap D2.
Proof.
  apply (@zero_transform_is_a_copy sample_imports sample_state
           sample_detections sample_data).
  exact sample_contents.
Defined.

Lemma sample_response_well_formed :
  Forall (Forall well_formed_polygon) sample_response.
Proof.
  repeat constructor; try discriminate; simpl; lia.
Defined.

Lemma conversion_of_well_formed_response_witness :
  ∃ response,
    _convert_sam2_segmentation_response_to_inference_instances_seg_response
      sample_response (640%Z, 480%Z) [7%Z; 9%Z] ["cat"; "dog"] = Ok response ∧
    image_width response = 640%Z ∧ image_height response = 480%Z ∧
    Forall2 (λ kp pred,
        Forall2 reads kp.2 (pred_points pred) ∧
        pred_confidence pred = Q2Qc (1 # 2))
      (indexed_polygons sample_response 0) (predictions response).
Proof.
  apply (conversion_of_well_formed_response sample_response (640%Z, 480%Z)
           [7%Z; 9%Z] ["cat"; "dog"]).
  - exact sample_response_well_formed.
  - right. simpl. lia.
Defined.

Lemma sample_response_converts :
  ∃ response,
    _convert_sam2_segmentation_response_to_inference_instances_seg_response
      sample_response (640%Z, 480%Z) [] ["cat"] = Ok response.
Proof.
  destruct (_convert_sam2_segmentation_response_to_inference_instances_seg_response
              sample_response (640%Z, 480%Z) [] ["cat"]) as [response|e] eqn:E.
  - by exists response.
  - vm_compute in E. discriminate.
Defined.

(** Without prompt class ids the given names are not used: the classes
    are the indices of the predictions. *)
Lemma conversion_classes_witness :
  ∃ response,
    _convert_sam2_segmentation_response_to_inference_instances_seg_response
      sample_response (640%Z, 480%Z) [] ["cat"] = Ok response ∧
    Forall2 (λ kp pred,
        pred_class pred = pretty kp.1 ∧ pred_class_id pred = Z.of_nat kp.1)
      (indexed_polygons sample_response 0) (predictions response).
Proof.
  destruct sample_response_converts as [response E].
  exists response. split; [exact E|].
  exact (conversion_classes _ _ _ _ _ E).
Defined.

(** Two predictions for one prompt class. *)
Lemma conversion_too_few_classes_witness :
  ∃ e,
    _convert_sam2_segmentation_response_to_inference_instances_seg_response
      sample_response (640%Z, 480%Z) [7%Z] ["cat"] = Raise e.
Proof.
  apply (conversion_too_few_classes sample_response (640%Z, 480%Z)
           [7%Z] ["cat"] 1
           [ [[num 0; num 0]; [num 4; num 4]; [num 2; num 6]] ]).
  - discriminate.
  - reflexivity.
  - discriminate.
  - left. simpl. lia.
Defined.

Lemma conversion_short_point_witness :
  ∃ e,
    _convert_sam2_segmentation_response_to_inference_instances_seg_response
      response_with_short_point (640%Z, 480%Z) [] [] = Raise e.
Proof.
  apply (conversion_short_point response_with_short_point (640%Z, 480%Z) [] []
           [ [[num 1; num 2]; [num 3]] ] [[num 1; num 2]; [num 3]] [num 3]).
  - apply list_elem_of_here.
  - apply list_elem_of_here.
  - apply list_elem_of_further, list_elem_of_here.
  - simpl. lia.
Defined.

(** The boxes of the sample, with their classes. *)
Lemma image_prompts_outcome_witness :
  image_prompts (Some sample_data)
  = Returns ([AInt 0; AInt 2], [AStr "person"; AStr "car"],
             box_prompt <$> d_xyxy sample_data).
Proof.
  exact (image_prompts_outcome sample_data sample_wf).
Defined.

